(** * modbus_client: the operation execution engine of the Modbus TCP client

    A shallow embedding of [modbus_client.go]: flag parsing ([parseFlags]),
    the dispatch in [main], the read path with its register decoding
    ([performReadOperation]) and the four write paths, two of which build a
    big-endian data block ([writeMultipleCoils], [writeMultipleRegisters]).

    Conventions.
    - A Go [uint16], [int16], [int] or [int64] is a [Z]; every conversion and
      wrap-around the source performs is written out ([uint16], [int16],
      [int_add], [Duration_mul]).
    - A [byte] is [Byte.byte]; [byte_val] and [byte_of] are the conversions
      to and from integers ([byte_of] truncates, as Go's [byte(x)] does).
    - A [[]byte] handed back by the transport is a [ByteSlice]: the elements
      up to its length and the elements of the backing array between length
      and capacity, because Go checks a slice expression [s[lo:hi]] against
      the capacity, not the length.
    - A run-time panic is the [Panicked] result; nothing in the program
      recovers from one, so a panic ends the process.
    - The program's observable behaviour is a list of [Event]s: transport
      calls, log lines and sleeps. *)

From Stdlib Require Import ZArith List String Ascii Lia Bool.
From Stdlib Require Import Strings.Byte.
From stdpp Require Import base list.
From Equations Require Import Equations.

Import ListNotations.
Local Open Scope Z_scope.

(* ===================================================================== *)
(** ** Machine integers and bytes *)
(* ===================================================================== *)

(** Conversion to [uint16]: the low 16 bits. *)
Definition uint16 (z : Z) : Z := z mod 65536.

(** Conversion [int16(u)] of a [uint16]: same bit pattern, two's complement. *)
Definition int16 (u : Z) : Z :=
  let w := u mod 65536 in if w <? 32768 then w else w - 65536.

(** Go's [int] and [int64] on a 64-bit platform. *)
Definition int64 (z : Z) : Z :=
  let w := z mod 2 ^ 64 in if w <? 2 ^ 63 then w else w - 2 ^ 64.

Definition int_add (a b : Z) : Z := int64 (a + b).

Definition byte_val (b : byte) : Z := Z.of_N (Byte.to_N b).

(** [byte(x)]: the low 8 bits. *)
Definition byte_of (z : Z) : byte :=
  match Byte.of_N (Z.to_N (z mod 256)) with
  | Some b => b
  | None => x00
  end.

(* ===================================================================== *)
(** ** Run-time panics *)
(* ===================================================================== *)

Inductive Panic : Type :=
| IndexOutOfRange        (* "index out of range [i] with length n" *)
| SliceBoundsOutOfRange. (* "slice bounds out of range [:hi] with capacity c" *)

Inductive Res (A : Type) : Type :=
| Ok (a : A)
| Panicked (p : Panic).
Arguments Ok {A} a.
Arguments Panicked {A} p.

(** Sequencing: a panic ends the computation. *)
#[global] Instance Res_bind : MBind Res := fun A B k m =>
  match m with
  | Ok a => k a
  | Panicked p => Panicked p
  end.

(* ===================================================================== *)
(** ** Byte slices and [encoding/binary] *)
(* ===================================================================== *)

(** A [[]byte]: [elems] are the [len] visible elements, [spare] the rest of
    the backing array up to the capacity. *)
Record ByteSlice : Type := mkSlice {
  elems : list byte;
  spare : list byte
}.

Definition slen (s : ByteSlice) : nat := length (elems s).
Definition scap (s : ByteSlice) : nat := length (elems s ++ spare s).

(** The nil slice (the zero value of [var response []byte]). *)
Definition nil_slice : ByteSlice := mkSlice [] [].

(** A slice whose length is its capacity. *)
Definition full_slice (l : list byte) : ByteSlice := mkSlice l [].

(** The slice expression [s[lo:hi]]: in range when [lo <= hi <= cap(s)]. *)
Definition reslice (s : ByteSlice) (lo hi : nat) : Res ByteSlice :=
  if (lo <=? hi)%nat && (hi <=? scap s)%nat then
    let backing := elems s ++ spare s in
    Ok (mkSlice (take (hi - lo) (drop lo backing)) (drop hi backing))
  else Panicked SliceBoundsOutOfRange.

(** [binary.BigEndian.Uint16(b)]:
    [_ = b[1]; return uint16(b[1]) | uint16(b[0])<<8]. *)
Definition Uint16 (b : ByteSlice) : Res Z :=
  match elems b !! 0%nat, elems b !! 1%nat with
  | Some b0, Some b1 =>
      Ok (Z.lor (uint16 (byte_val b1)) (uint16 (Z.shiftl (uint16 (byte_val b0)) 8)))
  | _, _ => Panicked IndexOutOfRange
  end.

(** [binary.BigEndian.PutUint16(data[lo:hi], v)]:
    [_ = b[1]; b[0] = byte(v >> 8); b[1] = byte(v)], the writes landing in
    [data], which the sub-slice aliases.  [data] comes from [make], so its
    capacity is its length. *)
Definition PutUint16 (data : list byte) (lo hi : nat) (v : Z) : Res (list byte) :=
  if (lo <=? hi)%nat && (hi <=? length data)%nat then
    if (1 <? hi - lo)%nat then
      Ok (<[S lo := byte_of v]> (<[lo := byte_of (Z.shiftr v 8)]> data))
    else Panicked IndexOutOfRange
  else Panicked SliceBoundsOutOfRange.

(* ===================================================================== *)
(** ** The decode step of [performReadOperation] *)
(* ===================================================================== *)

(** Store [values[k] = v]: a panic when [k] is not below [len(values)]. *)
Definition store (values : list Z) (k : nat) (v : Z) : Res (list Z) :=
  if (k <? length values)%nat then Ok (<[k := v]> values)
  else Panicked IndexOutOfRange.

(** [for i := i0; i < len(response); i += 2 {
       values[i/2] = conv(binary.BigEndian.Uint16(response[i : i+2])) }]
    The right-hand side is evaluated first, the indexed store second.
    [conv] is the identity in the unsigned branch and [int16] in the signed
    one; the two branches are otherwise the same text. *)
Equations? decode_loop (conv : Z -> Z) (response : ByteSlice) (i : nat)
    (values : list Z) : Res (list Z) by wf (slen response - i)%nat lt :=
decode_loop conv response i values with decide (i < slen response)%nat := {
  | right _ => Ok values
  | left _ =>
      match (w ← reslice response i (i + 2);
             u ← Uint16 w;
             store values (i / 2) (conv u)) with
      | Ok values' => decode_loop conv response (i + 2) values'
      | Panicked p => Panicked p
      end }.
Proof. lia. Qed.

(** [values := make([]uint16, count)] followed by the loop. *)
Definition decode_unsigned (response : ByteSlice) (count : nat) : Res (list Z) :=
  decode_loop (fun u => u) response 0 (replicate count 0).

(** [values := make([]int16, count)] followed by the loop. *)
Definition decode_signed (response : ByteSlice) (count : nat) : Res (list Z) :=
  decode_loop int16 response 0 (replicate count 0).

Definition decode (unsigned : bool) (response : ByteSlice) (count : nat) : Res (list Z) :=
  if unsigned then decode_unsigned response count else decode_signed response count.

(* ===================================================================== *)
(** ** The data block of the multiple-write operations *)
(* ===================================================================== *)

(** [for i, value := range values {
       binary.BigEndian.PutUint16(data[i*2:i*2+2], value) }] *)
Fixpoint encode_loop (values : list Z) (i : nat) (data : list byte) : Res (list byte) :=
  match values with
  | [] => Ok data
  | value :: rest =>
      data' ← PutUint16 data (i * 2) (i * 2 + 2) value;
      encode_loop rest (S i) data'
  end.

(** [data := make([]byte, len(values)*2)] followed by the loop: the block
    that [writeMultipleCoils] and [writeMultipleRegisters] both build. *)
Definition encode (values : list Z) : Res (list byte) :=
  encode_loop values 0 (replicate (length values * 2) x00).

(* ===================================================================== *)
(** ** [strconv.ParseUint] and [strconv.ParseInt] in base 10 *)
(* ===================================================================== *)

Inductive NumError : Type := ErrSyntax | ErrRange.

Definition digit_of (c : ascii) : option Z :=
  let n := Z.of_N (N_of_ascii c) in
  if (48 <=? n) && (n <=? 57) then Some (n - 48) else None.

(** The digit loop of [ParseUint]: a character that is no digit is a syntax
    error, a value above [maxVal] a range error, whichever comes first. *)
Fixpoint scan_digits (s : string) (maxVal n : Z) : Z * option NumError :=
  match s with
  | EmptyString => (n, None)
  | String c s' =>
      match digit_of c with
      | None => (0, Some ErrSyntax)
      | Some d =>
          let n1 := n * 10 + d in
          if maxVal <? n1 then (maxVal, Some ErrRange)
          else scan_digits s' maxVal n1
      end
  end.

(** [strconv.ParseUint(s, 10, bitSize)]: the value and the error. *)
Definition ParseUint (s : string) (bitSize : Z) : Z * option NumError :=
  match s with
  | EmptyString => (0, Some ErrSyntax)
  | _ => scan_digits s (2 ^ bitSize - 1) 0
  end.

(** The second half of [strconv.ParseInt]: the digits go through
    [ParseUint], a syntax error is passed on, and the magnitude is checked
    against [cutoff = 1 << (bitSize-1)] (a range error of [ParseUint] leaves
    [un] at its maximum, which fails the check). *)
Definition ParseInt_magnitude (neg : bool) (digits : string) (bitSize : Z)
    : Z * option NumError :=
  match ParseUint digits bitSize with
  | (_, Some ErrSyntax) => (0, Some ErrSyntax)
  | (un, _) =>
      let cutoff := 2 ^ (bitSize - 1) in
      if negb neg && (cutoff <=? un) then (cutoff - 1, Some ErrRange)
      else if neg && (cutoff <? un) then (- cutoff, Some ErrRange)
      else (if neg then - un else un, None)
  end.

(** [strconv.ParseInt(s, 10, bitSize)]: a leading sign is picked off and
    the rest is converted as an unsigned number. *)
Definition ParseInt (s : string) (bitSize : Z) : Z * option NumError :=
  match s with
  | EmptyString => (0, Some ErrSyntax)
  | String c rest =>
      if Ascii.eqb c "+" then ParseInt_magnitude false rest bitSize
      else if Ascii.eqb c "-" then ParseInt_magnitude true rest bitSize
      else ParseInt_magnitude false s bitSize
  end.

(* ===================================================================== *)
(** ** Arguments, events and the transport *)
(* ===================================================================== *)

(** [ModbusArgs]. *)
Record ModbusArgs : Type := mkArgs {
  Server : string;
  Port : Z;
  UnitID : Z;
  Operation : string;
  Start : Z;
  Count : Z;
  Value : Z;
  Values : list Z;
  Repeat : Z;
  Interval : Z;
  Unsigned : bool
}.

(** The requests of [modbus.Client] that the program issues. *)
Inductive Request : Type :=
| ReadCoils (address quantity : Z)
| ReadDiscreteInputs (address quantity : Z)
| ReadHoldingRegisters (address quantity : Z)
| ReadInputRegisters (address quantity : Z)
| WriteSingleCoil (address value : Z)
| WriteSingleRegister (address value : Z)
| WriteMultipleCoils (address quantity : Z) (value : list byte)
| WriteMultipleRegisters (address quantity : Z) (value : list byte).

(** What a request returns: [(results []byte, err error)]. *)
Record Reply : Type := mkReply {
  results : ByteSlice;
  err : option string
}.

(** The transport seen from the program: the reply to the request made in
    the [n]-th pass through an operation's loop. *)
Definition Client : Type := nat -> Request -> Reply.

(** The operand of a log line. *)
Inductive Arg : Type :=
| AErr (e : string)
| AStr (s : string)
| AUint16 (v : Z)
| AUint16s (vs : list Z)
| AInt16s (vs : list Z).

Inductive Event : Type :=
| NewTCPClientHandler (server : string) (port : Z) (slaveId : Z)
| Call (r : Request)
| Printf (format : string) (a : Arg)
| Sleep (nanoseconds : Z)
| Close.

(** [log.Fatal] and [log.Fatalf]: the line printed before [os.Exit(1)]. *)
Inductive FatalLine : Type :=
| Fatal (msg : string)
| Fatalf (format : string) (a : Arg).

(** How far a run got.  [Running] is a run observed for as many passes as
    the observer allowed and still inside the loop. *)
Inductive Status : Type :=
| Running (i : Z) (n : nat)
| Returned
| Crashed (p : Panic)
| Exited (line : FatalLine).

(** [modbus.FuncCodeReadCoils] and the other three read function codes. *)
Definition FuncCodeReadCoils : Z := 1.
Definition FuncCodeReadDiscreteInputs : Z := 2.
Definition FuncCodeReadHoldingRegisters : Z := 3.
Definition FuncCodeReadInputRegisters : Z := 4.

(** [time.Duration(interval) * time.Millisecond], an [int64] of nanoseconds. *)
Definition Millisecond : Z := 1000000.
Definition Duration_mul (interval : Z) : Z := int64 (int64 interval * Millisecond).

(* ===================================================================== *)
(** ** [parseFlags] *)
(* ===================================================================== *)

(** One value of [--value] or [--values]: [ParseUint] and [uint16(value)]
    under [--unsigned], [ParseInt] and [uint16(value & 0xFFFF)] otherwise. *)
Definition parse_value (unsigned : bool) (valueStr : string) : option Z :=
  if unsigned then
    match ParseUint valueStr 16 with
    | (value, None) => Some (uint16 value)
    | (_, Some _) => None
    end
  else
    match ParseInt valueStr 16 with
    | (value, None) => Some (uint16 (Z.land value 65535))
    | (_, Some _) => None
    end.

(** [for i, valueStr := range values { ... args.Values[i] = ... }] *)
Fixpoint parse_values (unsigned : bool) (values : list string) (i : nat)
    (out : list Z) : FatalLine + list Z :=
  match values with
  | [] => inr out
  | valueStr :: rest =>
      match parse_value unsigned valueStr with
      | None => inl (Fatalf "Invalid value in 'values': %s" (AStr valueStr))
      | Some v => parse_values unsigned rest (S i) (<[i := v]> out)
      end
  end.

(** [parseFlags], from the point where [pflag.Parse()] has filled [args]
    (every field but [Value] and [Values]), [valueStr] and [values]. *)
Definition parseFlags (args : ModbusArgs) (valueStr : string) (values : list string)
    : FatalLine + ModbusArgs :=
  if String.eqb (Server args) "" then inl (Fatal "Server address is required")
  else
    match parse_value (Unsigned args) valueStr with
    | None => inl (Fatalf "Invalid value: %s" (AStr valueStr))
    | Some value =>
        match parse_values (Unsigned args) values 0 (replicate (length values) 0) with
        | inl line => inl line
        | inr vs =>
            inr (mkArgs (Server args) (Port args) (UnitID args) (Operation args)
                        (Start args) (Count args) value vs
                        (Repeat args) (Interval args) (Unsigned args))
        end
    end.

(* ===================================================================== *)
(** ** The repeat loop and the operations *)
(* ===================================================================== *)

(** The loop that all five operation functions share:
    [for i := 0; repeat <= 0 || i < repeat; i++ { body; time.Sleep(...) }].
    [body n] is the [n]-th pass: the events it produces and the panic that
    ended it, if any.  [fuel] bounds the passes observed. *)
Section RepeatLoop.
Variable body : nat -> list Event * option Panic.
Variables repeat interval : Z.

Definition loop_cond (i : Z) : bool := (repeat <=? 0) || (i <? repeat).

Fixpoint for_loop (fuel : nat) (i : Z) (n : nat) : list Event * Status :=
  if loop_cond i then
    match fuel with
    | O => ([], Running i n)
    | S fuel' =>
        match body n with
        | (evs, Some p) => (evs, Crashed p)
        | (evs, None) =>
            let '(rest, st) := for_loop fuel' (int_add i 1) (S n) in
            (evs ++ Sleep (Duration_mul interval) :: rest, st)
        end
    end
  else ([], Returned).
End RepeatLoop.

(** The [switch functionCode] of [performReadOperation]; with any other
    code no request is made and [response] and [err] stay nil. *)
Definition read_request (functionCode start count : Z) : option Request :=
  if functionCode =? FuncCodeReadCoils then Some (ReadCoils start count)
  else if functionCode =? FuncCodeReadDiscreteInputs then Some (ReadDiscreteInputs start count)
  else if functionCode =? FuncCodeReadHoldingRegisters then Some (ReadHoldingRegisters start count)
  else if functionCode =? FuncCodeReadInputRegisters then Some (ReadInputRegisters start count)
  else None.

(** One pass of the loop of [performReadOperation], the sleep apart. *)
Definition read_body (client : Client) (functionCode start count : Z)
    (unsigned : bool) (n : nat) : list Event * option Panic :=
  let '(calls, reply) :=
    match read_request functionCode start count with
    | Some rq => ([Call rq], client n rq)
    | None => ([], mkReply nil_slice None)
    end in
  match err reply with
  | Some e => (calls ++ [Printf "Error during read operation: %v" (AErr e)], None)
  | None =>
      if unsigned then
        match decode_unsigned (results reply) (Z.to_nat count) with
        | Ok values => (calls ++ [Printf "Read response (unsigned): %v" (AUint16s values)], None)
        | Panicked p => (calls, Some p)
        end
      else
        match decode_signed (results reply) (Z.to_nat count) with
        | Ok values => (calls ++ [Printf "Read response (signed): %v" (AInt16s values)], None)
        | Panicked p => (calls, Some p)
        end
  end.

Definition performReadOperation (client : Client) (functionCode start count repeat interval : Z)
    (unsigned : bool) (fuel : nat) : list Event * Status :=
  for_loop (read_body client functionCode start count unsigned) repeat interval fuel 0 0.

(** One pass of a write loop: the request, then the error or success line. *)
Definition write_body (client : Client) (rq : Request) (success : string) (a : Arg)
    (n : nat) : list Event * option Panic :=
  match err (client n rq) with
  | Some e => ([Call rq; Printf "Error during write operation: %v" (AErr e)], None)
  | None => ([Call rq; Printf success a], None)
  end.

Definition writeSingleCoil (client : Client) (address value repeat interval : Z)
    (fuel : nat) : list Event * Status :=
  for_loop (write_body client (WriteSingleCoil address value)
              "Successfully wrote single coil: %v" (AUint16 value))
           repeat interval fuel 0 0.

Definition writeSingleRegister (client : Client) (address value repeat interval : Z)
    (fuel : nat) : list Event * Status :=
  for_loop (write_body client (WriteSingleRegister address value)
              "Successfully wrote single register: %v" (AUint16 value))
           repeat interval fuel 0 0.

Definition writeMultipleCoils (client : Client) (start : Z) (values : list Z)
    (repeat interval : Z) (fuel : nat) : list Event * Status :=
  match encode values with
  | Panicked p => ([], Crashed p)
  | Ok data =>
      for_loop (write_body client
                  (WriteMultipleCoils start (uint16 (Z.of_nat (length values))) data)
                  "Successfully wrote multiple coils: %v" (AUint16s values))
               repeat interval fuel 0 0
  end.

Definition writeMultipleRegisters (client : Client) (start : Z) (values : list Z)
    (repeat interval : Z) (fuel : nat) : list Event * Status :=
  match encode values with
  | Panicked p => ([], Crashed p)
  | Ok data =>
      for_loop (write_body client
                  (WriteMultipleRegisters start (uint16 (Z.of_nat (length values))) data)
                  "Successfully wrote multiple registers: %v" (AUint16s values))
               repeat interval fuel 0 0
  end.

(* ===================================================================== *)
(** ** [createModbusClient] and [main] *)
(* ===================================================================== *)

(** [createModbusClient]: the handler and the client are allocated and the
    unit id is set; no request is sent and [Connect] is not called. *)
Definition createModbusClient (server : string) (port unitid : Z) : Event :=
  NewTCPClientHandler server port (unitid mod 256).

(** The [switch args.Operation] of [main]: the operation to run, or [None]
    in the [default] case. *)
Definition dispatch (args : ModbusArgs) (client : Client) (fuel : nat)
    : option (list Event * Status) :=
  let op := Operation args in
  let read code :=
    performReadOperation client code (Start args) (Count args)
                         (Repeat args) (Interval args) (Unsigned args) fuel in
  if String.eqb op "read_coils" then Some (read FuncCodeReadCoils)
  else if String.eqb op "read_discrete_inputs" then Some (read FuncCodeReadDiscreteInputs)
  else if String.eqb op "read_holding_registers" then Some (read FuncCodeReadHoldingRegisters)
  else if String.eqb op "read_input_registers" then Some (read FuncCodeReadInputRegisters)
  else if String.eqb op "write_single_coil" then
    Some (writeSingleCoil client (Start args) (Value args) (Repeat args) (Interval args) fuel)
  else if String.eqb op "write_single_register" then
    Some (writeSingleRegister client (Start args) (Value args) (Repeat args) (Interval args) fuel)
  else if String.eqb op "write_multiple_coils" then
    Some (writeMultipleCoils client (Start args) (Values args) (Repeat args) (Interval args) fuel)
  else if String.eqb op "write_multiple_registers" then
    Some (writeMultipleRegisters client (Start args) (Values args) (Repeat args) (Interval args) fuel)
  else None.

(** [main].  The deferred [handler.Close()] runs when [main] returns and
    when it panics, not when [log.Fatalf] exits the process. *)
Definition main (parsed : ModbusArgs) (valueStr : string) (values : list string)
    (client : Client) (fuel : nat) : list Event * Status :=
  match parseFlags parsed valueStr values with
  | inl line => ([], Exited line)
  | inr args =>
      let created := createModbusClient (Server args) (Port args) (UnitID args) in
      match dispatch args client fuel with
      | None => ([created], Exited (Fatalf "Invalid operation: %s" (AStr (Operation args))))
      | Some (evs, Running i n) => (created :: evs, Running i n)
      | Some (evs, st) => (created :: evs ++ [Close], st)
      end
  end.

(** The eight operation names of the [switch]. *)
Definition supported_operations : list string :=
  [ "read_coils"; "read_discrete_inputs"; "read_holding_registers";
    "read_input_registers"; "write_single_coil"; "write_single_register";
    "write_multiple_coils"; "write_multiple_registers" ]%string.

(* ===================================================================== *)
(** ** Vocabulary of the statements *)
(* ===================================================================== *)

(** The big-endian value of two bytes. *)
Definition be16 (b0 b1 : byte) : Z := 256 * byte_val b0 + byte_val b1.

(** The backing array of a slice, from its first element to its capacity. *)
Definition backing (r : ByteSlice) : list byte := elems r ++ spare r.

(** The number of passes of the decode loop: [len(response)] over 2,
    rounded up. *)
Definition nwords (r : ByteSlice) : nat := (slen r + 1) / 2.

(** The [k]-th two-byte window [response[2k : 2k+2]], read big-endian. *)
Definition word_at (r : ByteSlice) (k : nat) : Z :=
  match backing r !! (2 * k)%nat, backing r !! (2 * k + 1)%nat with
  | Some b0, Some b1 => be16 b0 b1
  | _, _ => 0
  end.

(** Every window of the loop lies within the capacity: always so for an
    even length, and for an odd length when a spare byte follows. *)
Definition windows_in_capacity (r : ByteSlice) : bool :=
  (2 * nwords r <=? scap r)%nat.

(** The two bytes [PutUint16] writes for [v]. *)
Definition be_bytes (v : Z) : list byte := [byte_of (Z.shiftr v 8); byte_of v].

(** A byte sequence read as consecutive big-endian 16-bit words. *)
Fixpoint be_words (l : list byte) : list Z :=
  match l with
  | b0 :: b1 :: rest => be16 b0 b1 :: be_words rest
  | _ => []
  end.

(** The conversion of the active mode: none for unsigned, [int16] for
    signed. *)
Definition as_mode (unsigned : bool) (u : Z) : Z := if unsigned then u else int16 u.

(** The log line of a read that decoded. *)
Definition read_report (unsigned : bool) (values : list Z) : Event :=
  if unsigned then Printf "Read response (unsigned): %v" (AUint16s values)
  else Printf "Read response (signed): %v" (AInt16s values).

(** A reply without error whose payload fills its backing array. *)
Definition ok_reply (l : list byte) : Reply := mkReply (full_slice l) None.

(** The request that the operation named by [args] makes in every pass of
    its loop; [None] for a name that is not an operation. *)
Definition operation_request (args : ModbusArgs) : option Request :=
  let op := Operation args in
  if String.eqb op "read_coils" then Some (ReadCoils (Start args) (Count args))
  else if String.eqb op "read_discrete_inputs" then
    Some (ReadDiscreteInputs (Start args) (Count args))
  else if String.eqb op "read_holding_registers" then
    Some (ReadHoldingRegisters (Start args) (Count args))
  else if String.eqb op "read_input_registers" then
    Some (ReadInputRegisters (Start args) (Count args))
  else if String.eqb op "write_single_coil" then
    Some (WriteSingleCoil (Start args) (Value args))
  else if String.eqb op "write_single_register" then
    Some (WriteSingleRegister (Start args) (Value args))
  else if String.eqb op "write_multiple_coils" then
    Some (WriteMultipleCoils (Start args) (uint16 (Z.of_nat (length (Values args))))
            (flat_map be_bytes (Values args)))
  else if String.eqb op "write_multiple_registers" then
    Some (WriteMultipleRegisters (Start args) (uint16 (Z.of_nat (length (Values args))))
            (flat_map be_bytes (Values args)))
  else None.

Definition is_read (rq : Request) : bool :=
  match rq with
  | ReadCoils _ _ | ReadDiscreteInputs _ _
  | ReadHoldingRegisters _ _ | ReadInputRegisters _ _ => true
  | _ => false
  end.



(** The integer that a string of decimal digits denotes. *)
Fixpoint digits_value (s : string) (n : Z) : option Z :=
  match s with
  | EmptyString => Some n
  | String c s' =>
      match digit_of c with
      | None => None
      | Some d => digits_value s' (n * 10 + d)
      end
  end.

Definition unsigned_decimal (s : string) : option Z :=
  match s with
  | EmptyString => None
  | _ => digits_value s 0
  end.

(** The integer that a decimal string with an optional sign denotes. *)
Definition signed_decimal (s : string) : option Z :=
  match s with
  | EmptyString => None
  | String c rest =>
      if Ascii.eqb c "+" then unsigned_decimal rest
      else if Ascii.eqb c "-" then option_map Z.opp (unsigned_decimal rest)
      else unsigned_decimal s
  end.

(** The events of pass [n] of a loop when the pass does not panic: its own,
    then the sleep. *)
Definition pass_events (body : nat -> list Event * option Panic) (interval : Z)
    (n : nat) : list Event :=
  fst (body n) ++ [Sleep (Duration_mul interval)].

(** Sample inputs: arguments as [pflag] leaves them for an operation on
    address 0, a transport that always answers with the same payload, and
    one that fails with a timeout in pass [k] only. *)
Definition sample_args (op : string) (count repeat : Z) (unsigned : bool) : ModbusArgs :=
  mkArgs "plc" 502 1 op 0 count 0 [] repeat 1000 unsigned.

Definition steady_client (payload : list byte) : Client :=
  fun _ _ => ok_reply payload.

Definition timeout_at (k : nat) (payload : list byte) : Client :=
  fun n _ => if Nat.eqb n k then mkReply nil_slice (Some "i/o timeout"%string)
             else ok_reply payload.

(** The number of events of a kind in a trace. *)
Definition is_call (ev : Event) : bool := match ev with Call _ => true | _ => false end.
Definition is_line (ev : Event) : bool := match ev with Printf _ _ => true | _ => false end.
Definition is_sleep (ev : Event) : bool := match ev with Sleep _ => true | _ => false end.
Definition count_events (f : Event -> bool) (t : list Event) : nat :=
  length (List.filter f t).

(** 1 for a run that ended in a panic, 0 otherwise. *)
Definition crashed (st : Status) : nat :=
  match st with
  | Crashed _ => 1
  | _ => 0
  end.

(** An event that a loop can produce: a request, a log line or a sleep. *)
Definition is_loop_event (ev : Event) : bool := is_call ev || is_line ev || is_sleep ev.

(* ===================================================================== *)
(** ** Bytes and 16-bit words *)
(* ===================================================================== *)

Lemma byte_val_range (b : byte) : 0 <= byte_val b < 256.
Proof.
  unfold byte_val. pose proof (Byte.to_N_bounded b). lia.
Qed.

Lemma byte_of_val (b : byte) : byte_of (byte_val b) = b.
Proof.
  unfold byte_of. pose proof (byte_val_range b) as Hr.
  rewrite Z.mod_small by lia. unfold byte_val.
  rewrite N2Z.id, Byte.of_to_N. reflexivity.
Qed.

Lemma byte_val_of (z : Z) : byte_val (byte_of z) = z mod 256.
Proof.
  unfold byte_of, byte_val.
  assert (Hm : 0 <= z mod 256 < 256) by (apply Z.mod_pos_bound; lia).
  destruct (Byte.of_N (Z.to_N (z mod 256))) as [b|] eqn:E.
  - apply Byte.to_of_N in E. rewrite E. lia.
  - apply Byte.of_N_None_iff in E. lia.
Qed.

Lemma be16_range (b0 b1 : byte) : 0 <= be16 b0 b1 <= 65535.
Proof.
  unfold be16. pose proof (byte_val_range b0). pose proof (byte_val_range b1). lia.
Qed.

Lemma land_low_high (lo hi : Z) : 0 <= lo < 256 -> Z.land lo (hi * 2 ^ 8) = 0.
Proof.
  intros Hlo. apply Z.bits_inj'. intros n Hn.
  rewrite Z.land_spec, Z.bits_0.
  destruct (Z.lt_ge_cases n 8) as [Hlt|Hge].
  - rewrite (Z.mul_pow2_bits_low _ _ _ Hlt). apply andb_false_r.
  - replace (Z.testbit lo n) with false; [reflexivity|].
    symmetry. destruct (Z.eq_dec lo 0) as [->|Hnz].
    + apply Z.bits_0.
    + apply Z.bits_above_log2; [lia|].
      assert (Z.log2 lo < 8) by (apply Z.log2_lt_pow2; lia). lia.
Qed.

(** The expression of [Uint16] is the big-endian value. *)
Lemma Uint16_lor (b0 b1 : byte) :
  Z.lor (uint16 (byte_val b1)) (uint16 (Z.shiftl (uint16 (byte_val b0)) 8)) = be16 b0 b1.
Proof.
  pose proof (byte_val_range b0) as H0. pose proof (byte_val_range b1) as H1.
  unfold uint16, be16.
  rewrite (Z.mod_small (byte_val b1)) by lia.
  rewrite (Z.mod_small (byte_val b0)) by lia.
  rewrite Z.shiftl_mul_pow2 by lia.
  rewrite Z.mod_small by lia.
  rewrite <- Z.lxor_lor by (apply land_low_high; lia).
  rewrite <- Z.add_nocarry_lxor by (apply land_low_high; lia).
  lia.
Qed.

(* ===================================================================== *)
(** ** The decode loop *)
(* ===================================================================== *)

Lemma decode_loop_eq conv r i vs :
  decode_loop conv r i vs =
  if decide (i < slen r)%nat then
    match (w ← reslice r i (i + 2); u ← Uint16 w; store vs (i / 2) (conv u)) with
    | Ok vs' => decode_loop conv r (i + 2) vs'
    | Panicked p => Panicked p
    end
  else Ok vs.
Proof.
  rewrite decode_loop_equation_1.
  destruct (decide (i < slen r)%nat); reflexivity.
Qed.

Lemma scap_backing r : scap r = length (backing r).
Proof. reflexivity. Qed.

Lemma slen_le_scap r : (slen r <= scap r)%nat.
Proof. unfold slen, scap. rewrite length_app. lia. Qed.

(** A window inside the capacity reads the two bytes of the backing array. *)
Lemma window_in_range r i :
  (i + 2 <= scap r)%nat ->
  exists w b0 b1, backing r !! i = Some b0 /\ backing r !! S i = Some b1 /\
    reslice r i (i + 2) = Ok w /\ Uint16 w = Ok (be16 b0 b1).
Proof.
  intros Hc. rewrite scap_backing in Hc.
  destruct (lookup_lt_is_Some_2 (backing r) i) as [b0 Hb0]; [lia|].
  destruct (lookup_lt_is_Some_2 (backing r) (S i)) as [b1 Hb1]; [lia|].
  eexists _, b0, b1. split; [exact Hb0|]. split; [exact Hb1|].
  unfold reslice. rewrite scap_backing.
  replace ((i <=? i + 2)%nat && (i + 2 <=? length (backing r))%nat) with true
    by (symmetry; apply andb_true_iff; split; apply Nat.leb_le; lia).
  split; [reflexivity|].
  unfold Uint16. cbn [elems].
  fold (backing r). replace (i + 2 - i)%nat with 2%nat by lia.
  rewrite !lookup_take_lt by lia. rewrite !lookup_drop.
  rewrite Nat.add_0_r, Nat.add_1_r, Hb0, Hb1.
  rewrite Uint16_lor. reflexivity.
Qed.

(** A window that reaches past the capacity panics. *)
Lemma window_out_of_range r i :
  (scap r < i + 2)%nat -> reslice r i (i + 2) = Panicked SliceBoundsOutOfRange.
Proof.
  intros Hc. unfold reslice.
  replace ((i <=? i + 2)%nat && (i + 2 <=? scap r)%nat) with false; [reflexivity|].
  symmetry. apply andb_false_iff. right. apply Nat.leb_gt. lia.
Qed.

Lemma word_at_lookup r k b0 b1 :
  backing r !! (2 * k)%nat = Some b0 -> backing r !! S (2 * k) = Some b1 ->
  word_at r k = be16 b0 b1.
Proof.
  intros H0 H1. unfold word_at. rewrite Nat.add_1_r, H0, H1. reflexivity.
Qed.

(** One pass of the loop at [i = 2k]. *)
Lemma decode_loop_pass conv r k vs :
  (2 * k < slen r)%nat ->
  decode_loop conv r (2 * k) vs =
  if (2 * k + 2 <=? scap r)%nat then
    if (k <? length vs)%nat then
      decode_loop conv r (2 * S k) (<[k := conv (word_at r k)]> vs)
    else Panicked IndexOutOfRange
  else Panicked SliceBoundsOutOfRange.
Proof.
  intros Hlt. rewrite decode_loop_eq.
  destruct (decide (2 * k < slen r)%nat) as [_|]; [|lia].
  destruct (2 * k + 2 <=? scap r)%nat eqn:Hc.
  - apply Nat.leb_le in Hc.
    destruct (window_in_range r (2 * k) Hc) as (w & b0 & b1 & H0 & H1 & Hw & Hu).
    rewrite Hw. cbn [mbind Res_bind]. rewrite Hu. cbn [mbind Res_bind].
    rewrite (word_at_lookup r k b0 b1 H0 H1).
    replace (2 * k / 2)%nat with k by (symmetry; rewrite Nat.mul_comm; apply Nat.div_mul; lia).
    unfold store. destruct (k <? length vs)%nat; [|reflexivity].
    replace (2 * k + 2)%nat with (2 * S k)%nat by lia. reflexivity.
  - apply Nat.leb_gt in Hc. rewrite window_out_of_range by lia. reflexivity.
Qed.

Lemma decode_loop_done conv r i vs :
  (slen r <= i)%nat -> decode_loop conv r i vs = Ok vs.
Proof.
  intros Hle. rewrite decode_loop_eq.
  destruct (decide (i < slen r)%nat); [lia|reflexivity].
Qed.

Lemma nwords_spec r : (2 * nwords r = slen r \/ 2 * nwords r = slen r + 1)%nat.
Proof.
  unfold nwords.
  pose proof (Nat.div_mod_eq (slen r + 1) 2) as Hd.
  pose proof (Nat.mod_upper_bound (slen r + 1) 2). lia.
Qed.

(** The loop from pass [k] onwards, when every window is within the
    capacity and [values] has room for every pass: it ends normally, and
    has written the converted windows [k], ..., [nwords - 1]. *)
Lemma decode_loop_ok conv r (vs : list Z) :
  windows_in_capacity r = true -> (nwords r <= length vs)%nat ->
  forall m k, (k + m = nwords r)%nat ->
  forall vs0 : list Z, length vs0 = length vs ->
  exists vs' : list Z,
    decode_loop conv r (2 * k) vs0 = Ok vs' /\ length vs' = length vs /\
    forall j : nat, vs' !! j =
      if decide (k <= j < nwords r)%nat then Some (conv (word_at r j)) else vs0 !! j.
Proof.
  intros Hw Hroom. apply Nat.leb_le in Hw.
  pose proof (nwords_spec r) as Hn.
  induction m as [|m IH]; intros k Hk vs0 Hlen.
  - exists vs0. split; [apply decode_loop_done; lia|]. split; [exact Hlen|].
    intros j. destruct (decide (k <= j < nwords r)%nat); [lia|reflexivity].
  - rewrite decode_loop_pass by lia.
    replace (2 * k + 2 <=? scap r)%nat with true by (symmetry; apply Nat.leb_le; lia).
    replace (k <? length vs0)%nat with true by (symmetry; apply Nat.ltb_lt; lia).
    destruct (IH (S k) ltac:(lia) (<[k := conv (word_at r k)]> vs0)) as (vs' & He & Hl & Hj).
    { rewrite length_insert. exact Hlen. }
    exists vs'. split; [exact He|]. split; [exact Hl|].
    intros j. rewrite Hj.
    destruct (decide (S k <= j < nwords r)%nat) as [Hin|Hout].
    + destruct (decide (k <= j < nwords r)%nat); [reflexivity|lia].
    + destruct (decide (j = k)) as [->|Hne].
      * rewrite list_lookup_insert_eq by lia.
        destruct (decide (k <= k < nwords r)%nat); [reflexivity|lia].
      * rewrite list_lookup_insert_ne by congruence.
        destruct (decide (k <= j < nwords r)%nat); [lia|reflexivity].
Qed.

(** With more than [2*count] bytes the loop panics in pass [count]: on the
    window when that one reaches past the capacity, on the store otherwise. *)
Lemma decode_loop_overlong conv r count :
  (2 * count < slen r)%nat ->
  forall m k (vs0 : list Z), (k + m = count)%nat -> length vs0 = count ->
  decode_loop conv r (2 * k) vs0 =
    Panicked (if (2 * count + 2 <=? scap r)%nat then IndexOutOfRange
              else SliceBoundsOutOfRange).
Proof.
  intros Hlong. pose proof (slen_le_scap r) as Hcap.
  induction m as [|m IH]; intros k vs0 Hk Hlen.
  - assert (k = count) by lia. subst k.
    rewrite decode_loop_pass by lia.
    destruct (2 * count + 2 <=? scap r)%nat; [|reflexivity].
    replace (count <? length vs0)%nat with false; [reflexivity|].
    symmetry. apply Nat.ltb_ge. lia.
  - rewrite decode_loop_pass by lia.
    replace (2 * k + 2 <=? scap r)%nat with true by (symmetry; apply Nat.leb_le; lia).
    replace (k <? length vs0)%nat with true by (symmetry; apply Nat.ltb_lt; lia).
    apply IH; [lia|]. rewrite length_insert. exact Hlen.
Qed.

(** With at most [2*count] bytes the loop panics only on its last window,
    when that one reaches past the capacity. *)
Lemma decode_loop_last_window conv r count :
  windows_in_capacity r = false -> (slen r <= 2 * count)%nat ->
  forall m k (vs0 : list Z), (k + S m = nwords r)%nat -> length vs0 = count ->
  decode_loop conv r (2 * k) vs0 = Panicked SliceBoundsOutOfRange.
Proof.
  intros Hw Hfit. pose proof (nwords_spec r) as Hn.
  unfold windows_in_capacity in Hw. apply Nat.leb_gt in Hw.
  induction m as [|m IH]; intros k vs0 Hk Hlen.
  - rewrite decode_loop_pass by lia.
    replace (2 * k + 2 <=? scap r)%nat with false; [reflexivity|].
    symmetry. apply Nat.leb_gt. lia.
  - pose proof (slen_le_scap r) as Hcap.
    rewrite decode_loop_pass by lia.
    replace (2 * k + 2 <=? scap r)%nat with true by (symmetry; apply Nat.leb_le; lia).
    replace (k <? length vs0)%nat with true by (symmetry; apply Nat.ltb_lt; lia).
    apply IH; [lia|]. rewrite length_insert. exact Hlen.
Qed.

(** When the loop ends normally and when it panics. *)
Lemma nwords_le r count : (nwords r <= count <-> slen r <= 2 * count)%nat.
Proof. pose proof (nwords_spec r). lia. Qed.

Lemma decode_loop_returns conv r count :
  windows_in_capacity r = true -> (slen r <= 2 * count)%nat ->
  exists vs : list Z,
    decode_loop conv r 0 (replicate count 0) = Ok vs /\ length vs = count /\
    forall j : nat, vs !! j =
      if decide (j < nwords r)%nat then Some (conv (word_at r j))
      else if decide (j < count)%nat then Some 0 else None.
Proof.
  intros Hw Hfit. apply nwords_le in Hfit.
  destruct (decode_loop_ok conv r (replicate count 0) Hw) with
    (m := nwords r) (k := 0%nat) (vs0 := replicate count 0)
    as (vs & He & Hl & Hj); [rewrite length_replicate; lia|lia|reflexivity|].
  exists vs. split; [exact He|]. rewrite length_replicate in Hl. split; [exact Hl|].
  intros j. rewrite Hj.
  destruct (decide (0 <= j < nwords r)%nat), (decide (j < nwords r)%nat); try lia;
    [reflexivity|].
  destruct (decide (j < count)%nat).
  - apply lookup_replicate_2. lia.
  - apply lookup_ge_None. rewrite length_replicate. lia.
Qed.

Lemma decode_loop_aborts conv r count :
  windows_in_capacity r = false \/ (2 * count < slen r)%nat ->
  exists p, decode_loop conv r 0 (replicate count 0) = Panicked p.
Proof.
  intros Hbad.
  destruct (le_lt_dec (slen r) (2 * count)) as [Hfit|Hlong].
  - destruct Hbad as [Hw|Hl]; [|lia].
    exists SliceBoundsOutOfRange.
    pose proof (nwords_spec r) as Hn.
    assert (0 < nwords r)%nat
      by (unfold windows_in_capacity in Hw; apply Nat.leb_gt in Hw; lia).
    apply (decode_loop_last_window conv r count Hw Hfit (nwords r - 1) 0%nat);
      [lia|apply length_replicate].
  - eexists.
    apply (decode_loop_overlong conv r count Hlong count 0%nat);
      [lia|apply length_replicate].
Qed.

(** The decode step ends normally exactly when every window is within the
    capacity and the payload has at most [2*count] bytes. *)
Lemma decode_loop_returns_iff conv r count :
  (exists vs, decode_loop conv r 0 (replicate count 0) = Ok vs) <->
  windows_in_capacity r = true /\ (slen r <= 2 * count)%nat.
Proof.
  split.
  - intros [vs He].
    destruct (windows_in_capacity r) eqn:Hw.
    + split; [reflexivity|].
      destruct (le_lt_dec (slen r) (2 * count)) as [Hle|Hgt]; [exact Hle|].
      destruct (decode_loop_aborts conv r count) as [p Hp]; [right; exact Hgt|].
      congruence.
    + destruct (decode_loop_aborts conv r count) as [p Hp]; [left; exact Hw|].
      congruence.
  - intros [Hw Hfit].
    destruct (decode_loop_returns conv r count Hw Hfit) as (vs & He & _).
    exists vs. exact He.
Qed.

Lemma even_windows_in_capacity r :
  Nat.even (slen r) = true -> windows_in_capacity r = true.
Proof.
  intros He. apply Nat.even_spec in He. destruct He as [h Hh].
  pose proof (nwords_spec r). pose proof (slen_le_scap r).
  unfold windows_in_capacity. apply Nat.leb_le.
  assert (nwords r = h); [|lia].
  unfold nwords. rewrite Hh.
  replace (2 * h + 1)%nat with (1 + h * 2)%nat by lia.
  rewrite Nat.div_add by lia. reflexivity.
Qed.

Lemma spare_windows_in_capacity r :
  (slen r < scap r)%nat -> windows_in_capacity r = true.
Proof.
  intros Hs. pose proof (nwords_spec r).
  unfold windows_in_capacity. apply Nat.leb_le. lia.
Qed.

Lemma word_at_elems r k b0 b1 :
  elems r !! (2 * k)%nat = Some b0 -> elems r !! (2 * k + 1)%nat = Some b1 ->
  word_at r k = be16 b0 b1 /\ (k < nwords r)%nat.
Proof.
  intros H0 H1. split.
  - unfold word_at, backing.
    rewrite (lookup_app_l_Some _ _ _ _ H0), (lookup_app_l_Some _ _ _ _ H1). reflexivity.
  - apply lookup_lt_Some in H1. fold (slen r) in H1.
    pose proof (nwords_spec r). lia.
Qed.

Lemma int16_spec (u : Z) :
  0 <= u <= 65535 ->
  -32768 <= int16 u <= 32767 /\
  (int16 u < 0 <-> 32768 <= u) /\
  (u < 32768 -> int16 u = u) /\
  (32768 <= u -> int16 u = u - 65536) /\
  int16 u mod 65536 = u.
Proof.
  intros Hu. unfold int16. rewrite Z.mod_small by lia.
  destruct (u <? 32768) eqn:E; [apply Z.ltb_lt in E|apply Z.ltb_ge in E].
  - repeat split; try lia. apply Z.mod_small. lia.
  - repeat split; try lia.
    replace (u - 65536) with (u + (-1) * 65536) by lia.
    rewrite Z.mod_add by lia. apply Z.mod_small. lia.
Qed.

(* ===================================================================== *)
(** ** The data block *)
(* ===================================================================== *)

Lemma PutUint16_app (pre post : list byte) (x y : byte) (i : nat) (v : Z) :
  length pre = (i * 2)%nat ->
  PutUint16 (pre ++ x :: y :: post) (i * 2) (i * 2 + 2) v = Ok (pre ++ be_bytes v ++ post).
Proof.
  intros Hpre. unfold PutUint16.
  replace ((i * 2 <=? i * 2 + 2)%nat && (i * 2 + 2 <=? length (pre ++ x :: y :: post))%nat)
    with true
    by (symmetry; apply andb_true_iff; split; apply Nat.leb_le;
        rewrite ?length_app; cbn [length]; lia).
  replace (1 <? i * 2 + 2 - i * 2)%nat with true by (symmetry; apply Nat.ltb_lt; lia).
  f_equal. rewrite <- Hpre.
  rewrite (insert_app_r_alt pre _ (length pre)) by lia.
  rewrite Nat.sub_diag. cbn [insert list_insert].
  rewrite (insert_app_r_alt pre _ (S (length pre))) by lia.
  replace (S (length pre) - length pre)%nat with 1%nat by lia.
  reflexivity.
Qed.

(** The loop overwrites the block two bytes at a time, in input order. *)
Lemma encode_loop_app (values : list Z) :
  forall (i : nat) (pre mid post : list byte),
  length pre = (i * 2)%nat -> length mid = (length values * 2)%nat ->
  encode_loop values i (pre ++ mid ++ post) = Ok (pre ++ flat_map be_bytes values ++ post).
Proof.
  induction values as [|v values IH]; intros i pre mid post Hpre Hmid.
  - destruct mid; [reflexivity|discriminate].
  - destruct mid as [|x [|y mid]]; try discriminate.
    cbn [encode_loop app]. change (x :: y :: mid ++ post) with (x :: y :: (mid ++ post)).
    rewrite PutUint16_app by exact Hpre. cbn [mbind Res_bind].
    replace (pre ++ be_bytes v ++ mid ++ post) with ((pre ++ be_bytes v) ++ mid ++ post)
      by (rewrite <- !app_assoc; reflexivity).
    rewrite (IH (S i)).
    + cbn [flat_map]. rewrite <- !app_assoc. reflexivity.
    + rewrite length_app. cbn [be_bytes length]. lia.
    + cbn [length] in Hmid. lia.
Qed.

(** [encode] never panics, and its block is the concatenation of the two
    bytes of each value. *)
Lemma encode_flat_map (values : list Z) : encode values = Ok (flat_map be_bytes values).
Proof.
  unfold encode.
  pose proof (encode_loop_app values 0 [] (replicate (length values * 2) x00) []) as H.
  cbn [app] in H. rewrite !app_nil_r in H. apply H; [reflexivity|].
  apply length_replicate.
Qed.

Lemma length_flat_map_be_bytes (values : list Z) :
  length (flat_map be_bytes values) = (2 * length values)%nat.
Proof.
  induction values as [|v values IH]; [reflexivity|].
  cbn [flat_map be_bytes app length]. lia.
Qed.

Lemma be_bytes_be16 (b0 b1 : byte) : be_bytes (be16 b0 b1) = [b0; b1].
Proof.
  pose proof (byte_val_range b0) as H0. pose proof (byte_val_range b1) as H1.
  unfold be_bytes, be16. rewrite Z.shiftr_div_pow2 by lia.
  replace (256 * byte_val b0 + byte_val b1) with (byte_val b1 + byte_val b0 * 2 ^ 8) by lia.
  rewrite Z.div_add by lia. rewrite Z.div_small by lia.
  rewrite Z.add_0_l, byte_of_val.
  replace (byte_of (byte_val b1 + byte_val b0 * 2 ^ 8)) with (byte_of (byte_val b1)).
  - rewrite byte_of_val. reflexivity.
  - unfold byte_of. change (2 ^ 8) with 256. rewrite Z.mod_add by lia. reflexivity.
Qed.

(** The two bytes written for a 16-bit value are its big-endian form. *)
Lemma be16_be_bytes (v : Z) :
  0 <= v <= 65535 -> be16 (byte_of (Z.shiftr v 8)) (byte_of v) = v.
Proof.
  intros Hv. unfold be16. rewrite !byte_val_of.
  rewrite Z.shiftr_div_pow2 by lia. change (2 ^ 8) with 256.
  rewrite (Z.mod_small (v / 256)).
  - pose proof (Z.div_mod v 256). lia.
  - split; [apply Z.div_pos; lia|apply Z.div_lt_upper_bound; lia].
Qed.

(** Two-step induction on byte sequences. *)
Lemma list_pair_ind (P : list byte -> Prop) :
  P [] -> (forall b, P [b]) -> (forall b0 b1 l, P l -> P (b0 :: b1 :: l)) ->
  forall l, P l.
Proof.
  intros Hnil Hone Hstep.
  fix IH 1. intros [|b0 [|b1 l]]; [exact Hnil|apply Hone|apply Hstep, IH].
Qed.

Lemma flat_map_be_words (l : list byte) :
  Nat.even (length l) = true -> flat_map be_bytes (be_words l) = l.
Proof.
  induction l as [|b|b0 b1 l IH] using list_pair_ind; intros He.
  - reflexivity.
  - discriminate.
  - cbn [be_words flat_map]. rewrite be_bytes_be16. cbn [app].
    rewrite IH; [reflexivity|exact He].
Qed.

Lemma length_be_words (l : list byte) : length (be_words l) = (length l / 2)%nat.
Proof.
  induction l as [|b|b0 b1 l IH] using list_pair_ind; [reflexivity|reflexivity|].
  cbn [be_words length]. rewrite IH.
  change (S (S (length l))) with (1 * 2 + length l)%nat.
  rewrite Nat.div_add_l by lia. reflexivity.
Qed.

Lemma lookup_be_words (l : list byte) :
  forall j : nat, be_words l !! j =
    match l !! (2 * j)%nat, l !! (2 * j + 1)%nat with
    | Some b0, Some b1 => Some (be16 b0 b1)
    | _, _ => None
    end.
Proof.
  induction l as [|b|b0 b1 l IH] using list_pair_ind; intros j.
  - reflexivity.
  - destruct j as [|j]; [reflexivity|].
    replace (2 * S j)%nat with (S (S (2 * j))) by lia. reflexivity.
  - destruct j as [|j]; [reflexivity|].
    replace (2 * S j)%nat with (S (S (2 * j))) by lia.
    cbn [be_words]. cbn [lookup list_lookup Nat.add]. apply IH.
Qed.

Lemma flat_map_be_bytes_zeros (n : nat) :
  flat_map be_bytes (replicate n 0) = replicate (2 * n) x00.
Proof.
  induction n as [|n IH]; [reflexivity|].
  replace (2 * S n)%nat with (S (S (2 * n))) by lia.
  cbn [replicate flat_map]. rewrite IH. reflexivity.
Qed.

(** The values an even-length payload decodes to, as a list: its words in
    order, then zeros up to [count]. *)
Lemma decode_loop_even conv r count :
  Nat.even (slen r) = true -> (slen r <= 2 * count)%nat ->
  decode_loop conv r 0 (replicate count 0) =
    Ok (map conv (be_words (elems r)) ++ replicate (count - slen r / 2) 0).
Proof.
  intros He Hfit.
  destruct (decode_loop_returns conv r count (even_windows_in_capacity r He) Hfit)
    as (vs & Hvs & Hlen & Hj).
  rewrite Hvs. f_equal. apply list_eq. intros j. rewrite Hj.
  assert (Hn : nwords r = (slen r / 2)%nat /\ slen r = (2 * nwords r)%nat).
  { apply Nat.even_spec in He. destruct He as [h Hh].
    pose proof (nwords_spec r).
    assert (slen r / 2 = h)%nat
      by (rewrite Hh, Nat.mul_comm; apply Nat.div_mul; lia).
    lia. }
  destruct Hn as [Hn Hs].
  assert (Hlw : length (map conv (be_words (elems r))) = nwords r)
    by (rewrite length_map, length_be_words; symmetry; exact Hn).
  destruct (decide (j < nwords r)%nat) as [Hlt|Hge].
  - rewrite lookup_app_l by lia.
    rewrite list_lookup_fmap, lookup_be_words.
    destruct (lookup_lt_is_Some_2 (elems r) (2 * j)) as [b0 H0]; [fold (slen r); lia|].
    destruct (lookup_lt_is_Some_2 (elems r) (2 * j + 1)) as [b1 H1]; [fold (slen r); lia|].
    rewrite H0, H1. cbn [fmap option_fmap option_map].
    destruct (word_at_elems r j b0 b1 H0 H1) as [-> _]. reflexivity.
  - rewrite lookup_app_r by lia. rewrite Hlw, <- Hn.
    destruct (decide (j < count)%nat).
    + symmetry. apply lookup_replicate_2. lia.
    + symmetry. apply lookup_ge_None. rewrite length_replicate. lia.
Qed.

(* ===================================================================== *)
(** ** Claims about the value codec *)
(* ===================================================================== *)

(** C1 (as amended).  For every even-length payload P of at most [2*count]
    bytes and either mode, decoding P produces exactly [count] values, and
    encoding the unsigned decoding gives P followed by [2*count - len(P)]
    zero bytes.  When [len(P) = 2*count], the size a register read of
    [count] registers has, the values are exactly [len(P)/2] and the
    encoding reproduces P byte for byte. *)
Theorem C1_decode_encode_roundtrip (r : ByteSlice) (count : nat) (unsigned : bool) :
  Nat.even (slen r) = true -> (slen r <= 2 * count)%nat ->
  exists vs us : list Z,
    decode unsigned r count = Ok vs /\ length vs = count /\
    decode_unsigned r count = Ok us /\
    encode us = Ok (elems r ++ replicate (2 * count - slen r) x00) /\
    (slen r = (2 * count)%nat ->
       length vs = (slen r / 2)%nat /\ encode us = Ok (elems r)).
Proof.
  intros He Hfit.
  assert (Hhalf : (2 * (slen r / 2) = slen r)%nat).
  { apply Nat.even_spec in He. destruct He as [h Hh].
    rewrite Hh at 1. rewrite (Nat.mul_comm 2 h), Nat.div_mul by lia. lia. }
  assert (Hlen : forall conv,
    length (map conv (be_words (elems r)) ++ replicate (count - slen r / 2) 0) = count).
  { intros conv. rewrite length_app, length_map, length_be_words, length_replicate.
    fold (slen r). lia. }
  assert (Henc : encode (map (fun u => u) (be_words (elems r))
                          ++ replicate (count - slen r / 2) 0)
                 = Ok (elems r ++ replicate (2 * count - slen r) x00)).
  { rewrite encode_flat_map, map_id, flat_map_app, flat_map_be_words by exact He.
    rewrite flat_map_be_bytes_zeros. do 3 f_equal. lia. }
  exists (map (if unsigned then fun u => u else int16) (be_words (elems r))
            ++ replicate (count - slen r / 2) 0),
         (map (fun u => u) (be_words (elems r)) ++ replicate (count - slen r / 2) 0).
  split.
  - unfold decode, decode_unsigned, decode_signed.
    destruct unsigned; apply decode_loop_even; assumption.
  - split; [apply Hlen|].
    split; [apply decode_loop_even; assumption|].
    split; [exact Henc|].
    intros Hexact. split.
    + rewrite Hlen; lia.
    + rewrite Henc. replace (2 * count - slen r)%nat with 0%nat by lia.
      cbn [replicate]. rewrite app_nil_r. reflexivity.
Qed.

Lemma C1_decode_encode_roundtrip_witness :
  exists vs us : list Z,
    decode false (full_slice [x00; x0a; xff; xff]) 2 = Ok vs /\ length vs = 2%nat /\
    decode_unsigned (full_slice [x00; x0a; xff; xff]) 2 = Ok us /\
    encode us = Ok ([x00; x0a; xff; xff] ++ replicate 0 x00) /\
    (4 = 4 ->
       length vs = 2%nat /\ encode us = Ok [x00; x0a; xff; xff])%nat.
Proof.
  apply (C1_decode_encode_roundtrip (full_slice [x00; x0a; xff; xff]) 2 false);
    [reflexivity|vm_compute; lia].
Defined.

(** C1 as the spec states it fails: the decode step sizes its result by the
    requested count.  A read of 16 coils answered with the two bytes the
    protocol prescribes decodes to 16 values, not to 1, and those values
    encode to 32 bytes. *)
Lemma C1_counterexample :
  ~ (forall (r : ByteSlice) (count : nat),
       Nat.even (slen r) = true ->
       exists vs : list Z,
         decode_unsigned r count = Ok vs /\ length vs = (slen r / 2)%nat /\
         encode vs = Ok (elems r)).
Proof.
  intros H.
  destruct (H (full_slice [xff; xff]) 16%nat eq_refl) as (vs & Hd & Hl & _).
  vm_compute in Hd. injection Hd as <-. discriminate Hl.
Qed.

(** C4 (as amended).  For every big-endian 16-bit word [b0 b1] of a read payload that
    decodes (every two-byte window within the capacity, at most [2*count]
    bytes), the unsigned decoding returns the word's value
    [256*b0 + b1], which lies in [0, 65535], and the signed decoding returns
    its two's-complement reinterpretation: negative exactly when the word
    is at least 0x8000, where it is the value minus 65536, and the unsigned
    value otherwise.  In particular the payload [00 0A FF FF] decodes in
    unsigned mode with count 2 to [10, 65535]. *)
Theorem C4_signed_unsigned_decoding (r : ByteSlice) (count k : nat) (b0 b1 : byte) :
  windows_in_capacity r = true -> (slen r <= 2 * count)%nat ->
  elems r !! (2 * k)%nat = Some b0 -> elems r !! (2 * k + 1)%nat = Some b1 ->
  exists us ss : list Z,
    decode_unsigned r count = Ok us /\ decode_signed r count = Ok ss /\
    us !! k = Some (be16 b0 b1) /\ 0 <= be16 b0 b1 <= 65535 /\
    ss !! k = Some (int16 (be16 b0 b1)) /\
    -32768 <= int16 (be16 b0 b1) <= 32767 /\
    (int16 (be16 b0 b1) < 0 <-> 32768 <= be16 b0 b1) /\
    (be16 b0 b1 < 32768 -> int16 (be16 b0 b1) = be16 b0 b1) /\
    (32768 <= be16 b0 b1 -> int16 (be16 b0 b1) = be16 b0 b1 - 65536) /\
    decode_unsigned (full_slice [x00; x0a; xff; xff]) 2 = Ok [10; 65535].
Proof.
  intros Hw Hfit H0 H1.
  destruct (decode_loop_returns (fun u => u) r count Hw Hfit) as (us & Hus & _ & Hju).
  destruct (decode_loop_returns int16 r count Hw Hfit) as (ss & Hss & _ & Hjs).
  destruct (word_at_elems r k b0 b1 H0 H1) as [Hword Hk].
  pose proof (be16_range b0 b1) as Hr.
  destruct (int16_spec (be16 b0 b1) Hr) as (Hi & Hneg & Hlow & Hhigh & _).
  exists us, ss.
  split; [exact Hus|]. split; [exact Hss|].
  split.
  { rewrite Hju. destruct (decide (k < nwords r)%nat); [|lia]. rewrite Hword. reflexivity. }
  split; [exact Hr|].
  split.
  { rewrite Hjs. destruct (decide (k < nwords r)%nat); [|lia]. rewrite Hword. reflexivity. }
  split; [exact Hi|]. split; [exact Hneg|]. split; [exact Hlow|]. split; [exact Hhigh|].
  reflexivity.
Qed.

Lemma C4_signed_unsigned_decoding_witness :
  exists us ss : list Z,
    decode_unsigned (full_slice [x00; x0a; xff; xff]) 2 = Ok us /\
    decode_signed (full_slice [x00; x0a; xff; xff]) 2 = Ok ss /\
    us !! 1%nat = Some (be16 xff xff) /\ 0 <= be16 xff xff <= 65535 /\
    ss !! 1%nat = Some (int16 (be16 xff xff)) /\
    -32768 <= int16 (be16 xff xff) <= 32767 /\
    (int16 (be16 xff xff) < 0 <-> 32768 <= be16 xff xff) /\
    (be16 xff xff < 32768 -> int16 (be16 xff xff) = be16 xff xff) /\
    (32768 <= be16 xff xff -> int16 (be16 xff xff) = be16 xff xff - 65536) /\
    decode_unsigned (full_slice [x00; x0a; xff; xff]) 2 = Ok [10; 65535].
Proof.
  apply (C4_signed_unsigned_decoding (full_slice [x00; x0a; xff; xff]) 2 1 xff xff);
    [reflexivity|vm_compute; lia|reflexivity|reflexivity].
Defined.

(** C4 as stated fails for a word of a payload that the decode step cannot
    take: the result is sized by the requested count, and of the four bytes
    [00 01 00 02] answered to a request for one register not even the first
    word is returned, in either mode. *)
Lemma C4_counterexample :
  ~ (forall (r : ByteSlice) (count k : nat) (b0 b1 : byte),
       elems r !! (2 * k)%nat = Some b0 -> elems r !! (2 * k + 1)%nat = Some b1 ->
       exists us ss : list Z,
         decode_unsigned r count = Ok us /\ decode_signed r count = Ok ss /\
         us !! k = Some (be16 b0 b1) /\ ss !! k = Some (int16 (be16 b0 b1))).
Proof.
  intros H.
  destruct (H (full_slice [x00; x01; x00; x02]) 1%nat 0%nat x00 x01 eq_refl eq_refl)
    as (us & ss & Hus & _).
  vm_compute in Hus. discriminate Hus.
Qed.

(* ===================================================================== *)
(** ** One pass of the read loop *)
(* ===================================================================== *)

Lemma decode_by_mode (unsigned : bool) (r : ByteSlice) (count : nat) :
  decode unsigned r count = decode_loop (as_mode unsigned) r 0 (replicate count 0).
Proof. destruct unsigned; reflexivity. Qed.

(** The decode step on a payload that fits: [count] values, the converted
    windows first, zeros after them. *)
Lemma decode_returns (unsigned : bool) (r : ByteSlice) (count : nat) :
  windows_in_capacity r = true -> (slen r <= 2 * count)%nat ->
  exists vs : list Z,
    decode unsigned r count = Ok vs /\ length vs = count /\
    (forall j, (j < nwords r)%nat -> vs !! j = Some (as_mode unsigned (word_at r j))) /\
    (forall j, (nwords r <= j < count)%nat -> vs !! j = Some 0).
Proof.
  intros Hw Hfit. rewrite decode_by_mode.
  destruct (decode_loop_returns (as_mode unsigned) r count Hw Hfit)
    as (vs & Hvs & Hlen & Hj).
  exists vs. split; [exact Hvs|]. split; [exact Hlen|]. split.
  - intros j Hlt. rewrite Hj. destruct (decide (j < nwords r)%nat); [reflexivity|lia].
  - intros j Hjr. rewrite Hj.
    destruct (decide (j < nwords r)%nat); [lia|].
    destruct (decide (j < count)%nat); [reflexivity|lia].
Qed.

(** A pass whose request succeeded: the values are reported when the decode
    step returns, and the pass ends in its panic otherwise. *)
Lemma read_body_success client functionCode start count unsigned n rq :
  read_request functionCode start count = Some rq ->
  err (client n rq) = None ->
  read_body client functionCode start count unsigned n =
    match decode unsigned (results (client n rq)) (Z.to_nat count) with
    | Ok vs => ([Call rq; read_report unsigned vs], None)
    | Panicked p => ([Call rq], Some p)
    end.
Proof.
  intros Hrq Herr. unfold read_body. rewrite Hrq, Herr.
  unfold decode, read_report.
  destruct unsigned.
  - destruct (decode_unsigned _ _); reflexivity.
  - destruct (decode_signed _ _); reflexivity.
Qed.

(** A pass whose request failed: the error is reported, nothing panics. *)
Lemma read_body_failure client functionCode start count unsigned n rq e :
  read_request functionCode start count = Some rq ->
  err (client n rq) = Some e ->
  read_body client functionCode start count unsigned n =
    ([Call rq; Printf "Error during read operation: %v" (AErr e)], None).
Proof.
  intros Hrq Herr. unfold read_body. rewrite Hrq, Herr. reflexivity.
Qed.

(** C5 (as amended).  The read path has no odd-length check and no error
    result of its own.  In a pass whose request succeeded, the outcome is
    either the line reporting the decoded values or a run-time panic, never
    an error line.  Every even-length payload of at most [2*count] bytes
    decodes and its [count] values are reported; so is an odd-length payload
    of at most [2*count] bytes that a spare byte follows in its backing
    array, the last byte being paired with that spare byte. *)
Theorem C5_decode_without_length_check
    (client : Client) (functionCode start count : Z) (unsigned : bool) (n : nat)
    (rq : Request) :
  read_request functionCode start count = Some rq ->
  err (client n rq) = None ->
  let r := results (client n rq) in
  let pass := read_body client functionCode start count unsigned n in
  ((exists vs, decode unsigned r (Z.to_nat count) = Ok vs /\
               pass = ([Call rq; read_report unsigned vs], None)) \/
   (exists p, decode unsigned r (Z.to_nat count) = Panicked p /\
              pass = ([Call rq], Some p))) /\
  ((Nat.even (slen r) = true \/ (slen r < scap r)%nat) ->
   (slen r <= 2 * Z.to_nat count)%nat ->
   exists vs : list Z,
     pass = ([Call rq; read_report unsigned vs], None) /\
     length vs = Z.to_nat count /\
     (forall j, (j < nwords r)%nat -> vs !! j = Some (as_mode unsigned (word_at r j)))).
Proof.
  intros Hrq Herr r pass. subst pass.
  rewrite (read_body_success client functionCode start count unsigned n rq Hrq Herr).
  fold r. split.
  - destruct (decode unsigned r (Z.to_nat count)) as [vs|p]; [left|right]; eauto.
  - intros Hshape Hfit.
    assert (Hw : windows_in_capacity r = true).
    { destruct Hshape as [He|Hs];
        [apply even_windows_in_capacity|apply spare_windows_in_capacity]; assumption. }
    destruct (decode_returns unsigned r (Z.to_nat count) Hw Hfit)
      as (vs & Hvs & Hlen & Hwords & _).
    exists vs. rewrite Hvs. auto.
Qed.

Lemma C5_decode_without_length_check_witness :
  exists vs : list Z,
    read_body (fun _ _ => mkReply (mkSlice [x00; x0a; x01] [x02]) None)
              FuncCodeReadHoldingRegisters 0 2 true 0 =
      ([Call (ReadHoldingRegisters 0 2); read_report true vs], None) /\
    length vs = Z.to_nat 2 /\
    (forall j, (j < nwords (mkSlice [x00; x0a; x01] [x02]))%nat ->
       vs !! j = Some (as_mode true (word_at (mkSlice [x00; x0a; x01] [x02]) j))).
Proof.
  apply (proj2 (C5_decode_without_length_check
                  (fun _ _ => mkReply (mkSlice [x00; x0a; x01] [x02]) None)
                  FuncCodeReadHoldingRegisters 0 2 true 0 (ReadHoldingRegisters 0 2)
                  eq_refl eq_refl));
    [right; vm_compute; lia|vm_compute; lia].
Defined.

(** C5 as stated fails twice.  An even-length payload longer than [2*count]
    does not decode: four bytes answered to a request for one register end
    the pass in a panic.  And an odd-length payload is not surfaced as an
    error: one byte followed by a spare byte of capacity is reported as the
    value 256. *)
Lemma C5_counterexample :
  ~ (forall (r : ByteSlice) (count : nat),
       Nat.even (slen r) = true -> exists vs, decode_unsigned r count = Ok vs) /\
  read_body (fun _ _ => mkReply (mkSlice [x01] [x00]) None)
            FuncCodeReadCoils 0 1 true 0 =
    ([Call (ReadCoils 0 1); Printf "Read response (unsigned): %v" (AUint16s [256])], None).
Proof.
  split; [|reflexivity].
  intros H.
  destruct (H (full_slice [x00; x01; x00; x02]) 1%nat eq_refl) as (vs & Hd).
  vm_compute in Hd. discriminate Hd.
Qed.

(** C10 (as amended).  The decode step allocates [values] with the
    requested count, not with the payload length.  So in every pass whose
    request succeeded: when the pass ends normally the payload has at most
    [2*count] bytes, and a payload of more than [2*count] bytes ends the
    pass in an out-of-range panic in decode pass [count], on the store
    [values[count]] unless the window [response[2*count : 2*count+2]]
    already reaches past the capacity.  A payload of fewer than [2*count]
    bytes whose two-byte windows lie within the slice's capacity (every
    even-length payload, and an odd-length one followed by a spare byte)
    yields exactly [count] reported values: the decoded windows, then
    zeros. *)
Theorem C10_values_sized_by_count
    (client : Client) (functionCode start count : Z) (unsigned : bool) (n : nat)
    (rq : Request) :
  read_request functionCode start count = Some rq ->
  err (client n rq) = None ->
  let r := results (client n rq) in
  let pass := read_body client functionCode start count unsigned n in
  (snd pass = None -> (slen r <= 2 * Z.to_nat count)%nat) /\
  ((2 * Z.to_nat count < slen r)%nat ->
     pass = ([Call rq],
             Some (if (2 * Z.to_nat count + 2 <=? scap r)%nat then IndexOutOfRange
                   else SliceBoundsOutOfRange))) /\
  ((slen r < 2 * Z.to_nat count)%nat -> windows_in_capacity r = true ->
     exists vs : list Z,
       pass = ([Call rq; read_report unsigned vs], None) /\
       length vs = Z.to_nat count /\
       (forall j, (j < nwords r)%nat ->
          vs !! j = Some (as_mode unsigned (word_at r j))) /\
       (forall j, (nwords r <= j < Z.to_nat count)%nat -> vs !! j = Some 0)).
Proof.
  intros Hrq Herr r pass. subst pass.
  rewrite (read_body_success client functionCode start count unsigned n rq Hrq Herr).
  fold r.
  assert (Hlong : (2 * Z.to_nat count < slen r)%nat ->
                  decode unsigned r (Z.to_nat count) =
                    Panicked (if (2 * Z.to_nat count + 2 <=? scap r)%nat
                              then IndexOutOfRange else SliceBoundsOutOfRange)).
  { intros Hl. rewrite decode_by_mode.
    apply (decode_loop_overlong _ r _ Hl (Z.to_nat count) 0%nat);
      [lia|apply length_replicate]. }
  split; [|split].
  - intros Hnone.
    destruct (le_lt_dec (slen r) (2 * Z.to_nat count)) as [Hle|Hgt]; [exact Hle|].
    rewrite (Hlong Hgt) in Hnone. discriminate Hnone.
  - intros Hl. rewrite (Hlong Hl). reflexivity.
  - intros Hshort Hw.
    destruct (decode_returns unsigned r (Z.to_nat count) Hw)
      as (vs & Hvs & Hlen & Hwords & Hzeros); [lia|].
    exists vs. rewrite Hvs. auto.
Qed.

Lemma C10_values_sized_by_count_witness :
  exists vs : list Z,
    read_body (steady_client [x00; x0a]) FuncCodeReadInputRegisters 0 3 true 0 =
      ([Call (ReadInputRegisters 0 3); read_report true vs], None) /\
    length vs = Z.to_nat 3 /\
    (forall j, (j < nwords (full_slice [x00; x0a]))%nat ->
       vs !! j = Some (as_mode true (word_at (full_slice [x00; x0a]) j))) /\
    (forall j, (nwords (full_slice [x00; x0a]) <= j < Z.to_nat 3)%nat -> vs !! j = Some 0).
Proof.
  apply (proj2 (proj2 (C10_values_sized_by_count
                         (steady_client [x00; x0a]) FuncCodeReadInputRegisters 0 3 true 0
                         (ReadInputRegisters 0 3) eq_refl eq_refl)));
    [vm_compute; lia|reflexivity].
Defined.

(** C10 as stated fails for an odd-length payload that fills its capacity:
    one byte answered to a request for one value is shorter than [2*count],
    and the window [response[0:2]] panics before any value is produced or
    reported. *)
Lemma C10_counterexample :
  ~ (forall (r : ByteSlice) (count : nat),
       (slen r < 2 * count)%nat ->
       exists vs : list Z, decode_unsigned r count = Ok vs /\ length vs = count) /\
  read_body (steady_client [x01]) FuncCodeReadCoils 0 1 true 0 =
    ([Call (ReadCoils 0 1)], Some SliceBoundsOutOfRange).
Proof.
  split; [|reflexivity].
  intros H.
  destruct (H (full_slice [x01]) 1%nat) as (vs & Hd & _); [vm_compute; lia|].
  vm_compute in Hd. discriminate Hd.
Qed.

(* ===================================================================== *)
(** ** The repeat loop *)
(* ===================================================================== *)

Section RepeatLoopFacts.
Variable body : nat -> list Event * option Panic.
Variables repeat interval : Z.

#[local] Abbreviation loop := (for_loop body repeat interval).
#[local] Abbreviation pass := (pass_events body interval).

Lemma for_loop_exit fuel i n :
  loop_cond repeat i = false -> loop fuel i n = ([], Returned).
Proof. intros Hc. destruct fuel; cbn [for_loop]; rewrite Hc; reflexivity. Qed.

Lemma for_loop_pass fuel i n evs :
  loop_cond repeat i = true -> body n = (evs, None) ->
  loop (S fuel) i n =
    (pass n ++ fst (loop fuel (int_add i 1) (S n)),
     snd (loop fuel (int_add i 1) (S n))).
Proof.
  intros Hc Hb. unfold pass_events. cbn [for_loop]. rewrite Hc, Hb.
  destruct (for_loop body repeat interval fuel (int_add i 1) (S n)) as [rest st].
  cbn [fst snd]. rewrite <- app_assoc. reflexivity.
Qed.

(** A run observed for [k] passes and still running is a prefix of every
    longer observation, which resumes where the short one stopped. *)
Lemma for_loop_resume m :
  forall k i0 n0 pre i n,
  loop k i0 n0 = (pre, Running i n) ->
  loop_cond repeat i = true /\ n = (n0 + k)%nat /\
  loop (k + m) i0 n0 = (pre ++ fst (loop m i n), snd (loop m i n)).
Proof.
  induction k as [|k IH]; intros i0 n0 pre i n Hrun.
  - cbn [for_loop] in Hrun.
    destruct (loop_cond repeat i0) eqn:Hc; [|discriminate].
    injection Hrun as <- <- <-.
    split; [exact Hc|]. split; [lia|].
    cbn [Nat.add app]. destruct (for_loop body repeat interval m i0 n0); reflexivity.
  - cbn [for_loop] in Hrun.
    destruct (loop_cond repeat i0) eqn:Hc; [|discriminate].
    destruct (body n0) as [evs [p|]] eqn:Hb; [discriminate|].
    destruct (for_loop body repeat interval k (int_add i0 1) (S n0)) as [rest st] eqn:Hk.
    injection Hrun as <- ->.
    destruct (IH _ _ _ _ _ Hk) as (Hci & Hn & Hm).
    split; [exact Hci|]. split; [lia|].
    cbn [Nat.add for_loop]. rewrite Hc, Hb, Hm. cbn [fst snd].
    rewrite <- !app_assoc. reflexivity.
Qed.

(** A loop never crashes in a pass that does not panic. *)
Lemma for_loop_crash_origin :
  forall fuel i0 n0 t p,
  loop fuel i0 n0 = (t, Crashed p) ->
  exists n evs, (n0 <= n)%nat /\ body n = (evs, Some p).
Proof.
  induction fuel as [|fuel IH]; intros i0 n0 t p Hrun; cbn [for_loop] in Hrun.
  - destruct (loop_cond repeat i0); discriminate.
  - destruct (loop_cond repeat i0); [|discriminate].
    destruct (body n0) as [evs [q|]] eqn:Hb.
    + injection Hrun as <- <-. exists n0, evs. split; [lia|exact Hb].
    + destruct (for_loop body repeat interval fuel (int_add i0 1) (S n0))
        as [rest st] eqn:Hk.
      injection Hrun as <- ->.
      destruct (IH _ _ _ _ Hk) as (n & evs' & Hn & Hbn).
      exists n, evs'. split; [lia|exact Hbn].
Qed.

Hypothesis body_returns : forall n, snd (body n) = None.

Lemma int_add_succ (k : nat) :
  Z.of_nat k + 1 < 2 ^ 63 -> int_add (Z.of_nat k) 1 = Z.of_nat (S k).
Proof.
  intros Hk. unfold int_add, int64.
  rewrite Z.mod_small by lia.
  destruct (Z.of_nat k + 1 <? 2 ^ 63) eqn:E; [lia|apply Z.ltb_ge in E; lia].
Qed.

(** [repeat = N > 0]: the loop makes passes 0, ..., N-1 and returns. *)
Lemma for_loop_bounded_from (extra : nat) :
  0 < repeat < 2 ^ 63 ->
  forall m k, Z.of_nat (k + m) = repeat ->
  loop (m + extra) (Z.of_nat k) k = (concat (map pass (seq k m)), Returned).
Proof.
  intros Hr. induction m as [|m IH]; intros k Hk.
  - apply for_loop_exit. unfold loop_cond.
    apply orb_false_iff. split; [apply Z.leb_gt; lia|apply Z.ltb_ge; lia].
  - cbn [Nat.add].
    rewrite (for_loop_pass _ _ _ (fst (body k))).
    + rewrite int_add_succ by lia.
      rewrite IH by lia. reflexivity.
    + unfold loop_cond. apply orb_true_iff. right. apply Z.ltb_lt. lia.
    + specialize (body_returns k). destruct (body k) as [evs o].
      cbn [snd] in body_returns. subst o. reflexivity.
Qed.

Lemma for_loop_bounded (extra : nat) :
  0 < repeat < 2 ^ 63 ->
  loop (Z.to_nat repeat + extra) 0 0 =
    (concat (map pass (seq 0 (Z.to_nat repeat))), Returned).
Proof.
  intros Hr. apply (for_loop_bounded_from extra Hr (Z.to_nat repeat) 0%nat). lia.
Qed.

(** [repeat <= 0]: however many passes are observed, the loop has made
    them all and is still running. *)
Lemma for_loop_unbounded_from :
  repeat <= 0 ->
  forall fuel i k, exists i',
  loop fuel i k = (concat (map pass (seq k fuel)), Running i' (k + fuel)).
Proof.
  intros Hr.
  assert (Hc : forall i, loop_cond repeat i = true).
  { intros i. unfold loop_cond. apply orb_true_iff. left. apply Z.leb_le. exact Hr. }
  induction fuel as [|fuel IH]; intros i k.
  - exists i. cbn [for_loop]. rewrite Hc, Nat.add_0_r. reflexivity.
  - destruct (IH (int_add i 1) (S k)) as [i' Hi'].
    exists i'. rewrite (for_loop_pass _ _ _ (fst (body k))).
    + rewrite Hi'. cbn [fst snd seq map concat].
      replace (S k + fuel)%nat with (k + S fuel)%nat by lia. reflexivity.
    + apply Hc.
    + specialize (body_returns k). destruct (body k) as [evs o].
      cbn [snd] in body_returns. subst o. reflexivity.
Qed.
End RepeatLoopFacts.

(* ===================================================================== *)
(** ** The operations as loops *)
(* ===================================================================== *)

(** Every operation of the [switch] is the shared loop around a read pass
    or a write pass that makes the operation's request. *)
Lemma dispatch_loop (args : ModbusArgs) (client : Client) (rq : Request) :
  operation_request args = Some rq ->
  exists body,
    (forall fuel,
       dispatch args client fuel =
         Some (for_loop body (Repeat args) (Interval args) fuel 0 0)) /\
    ((exists code,
        read_request code (Start args) (Count args) = Some rq /\ is_read rq = true /\
        body = read_body client code (Start args) (Count args) (Unsigned args)) \/
     (exists s a, is_read rq = false /\ body = write_body client rq s a)).
Proof.
  unfold operation_request, dispatch. intros Hrq.
  repeat match type of Hrq with
         | context [String.eqb ?a ?b] => destruct (String.eqb a b)
         end;
    try discriminate Hrq; injection Hrq as <-;
    unfold writeMultipleCoils, writeMultipleRegisters; rewrite ?encode_flat_map;
    eexists; (split; [intros fuel; reflexivity|]);
    first [ left; eexists; refine (conj _ (conj eq_refl eq_refl)); reflexivity
          | right; eexists _, _; split; reflexivity ].
Qed.

(** What a pass does, by the reply it gets. *)
Lemma write_body_shape client rq s a n :
  exists line, write_body client rq s a n = ([Call rq; line], None) /\ is_line line = true.
Proof.
  unfold write_body. destruct (err (client n rq)); eexists; split; reflexivity.
Qed.


Lemma pass_starts_with_call (args : ModbusArgs) (client : Client) (rq : Request) body n :
  (exists code,
     read_request code (Start args) (Count args) = Some rq /\ is_read rq = true /\
     body = read_body client code (Start args) (Count args) (Unsigned args)) \/
  (exists s a, is_read rq = false /\ body = write_body client rq s a) ->
  exists evs o, body n = (Call rq :: evs, o).
Proof.
  intros [(code & Hrq & Hread & ->)|(s & a & Hread & ->)].
  - unfold read_body. rewrite Hrq.
    destruct (err (client n rq)); [eexists _, _; reflexivity|].
    destruct (Unsigned args).
    + destruct (decode_unsigned _ _); eexists _, _; reflexivity.
    + destruct (decode_signed _ _); eexists _, _; reflexivity.
  - destruct (write_body_shape client rq s a n) as (line & -> & _).
    eexists _, _; reflexivity.
Qed.

(** A pass that panics is a read pass whose request succeeded and whose
    payload the decode step could not take. *)
Lemma pass_panic_origin (args : ModbusArgs) (client : Client) (rq : Request) body n evs p :
  (exists code,
     read_request code (Start args) (Count args) = Some rq /\ is_read rq = true /\
     body = read_body client code (Start args) (Count args) (Unsigned args)) \/
  (exists s a, is_read rq = false /\ body = write_body client rq s a) ->
  body n = (evs, Some p) ->
  is_read rq = true /\ err (client n rq) = None /\
  decode (Unsigned args) (results (client n rq)) (Z.to_nat (Count args)) = Panicked p.
Proof.
  intros [(code & Hrq & Hread & ->)|(s & a & Hread & ->)] Hb.
  - destruct (err (client n rq)) as [e|] eqn:Herr.
    + rewrite (read_body_failure _ _ _ _ _ _ _ _ Hrq Herr) in Hb. discriminate Hb.
    + rewrite (read_body_success _ _ _ _ _ _ _ Hrq Herr) in Hb.
      destruct (decode _ _ _) as [vs|q]; [discriminate Hb|].
      injection Hb as _ <-. auto.
  - destruct (write_body_shape client rq s a n) as (line & Hw & _).
    rewrite Hw in Hb. discriminate Hb.
Qed.

Lemma for_loop_zero body repeat interval i n :
  for_loop body repeat interval 0 i n =
    ([], if loop_cond repeat i then Running i n else Returned).
Proof. cbn [for_loop]. destruct (loop_cond repeat i); reflexivity. Qed.

Lemma for_loop_one_starts body repeat interval fuel i n rq evs o :
  loop_cond repeat i = true -> body n = (Call rq :: evs, o) ->
  exists rest st, for_loop body repeat interval (S fuel) i n = (Call rq :: rest, st).
Proof.
  intros Hc Hb. cbn [for_loop]. rewrite Hc, Hb. destruct o as [p|].
  - eexists _, _. reflexivity.
  - destruct (for_loop body repeat interval fuel (int_add i 1) (S n)) as [rest st].
    eexists _, _. reflexivity.
Qed.

(* ===================================================================== *)
(** ** Claims about the repeat loop *)
(* ===================================================================== *)

(** What every pass looks like when no decode step panics. *)
Lemma pass_shape (args : ModbusArgs) (client : Client) (rq : Request) body :
  (exists code,
     read_request code (Start args) (Count args) = Some rq /\ is_read rq = true /\
     body = read_body client code (Start args) (Count args) (Unsigned args)) \/
  (exists s a, is_read rq = false /\ body = write_body client rq s a) ->
  (forall n, is_read rq = true -> err (client n rq) = None ->
     exists vs, decode (Unsigned args) (results (client n rq)) (Z.to_nat (Count args)) = Ok vs) ->
  forall n, exists line, body n = ([Call rq; line], None) /\ is_line line = true.
Proof.
  intros [(code & Hrq & Hread & ->)|(s & a & Hread & ->)] Hdec n.
  - destruct (err (client n rq)) as [e|] eqn:Herr.
    + rewrite (read_body_failure _ _ _ _ _ _ _ _ Hrq Herr). eexists; split; reflexivity.
    + destruct (Hdec n Hread Herr) as [vs Hvs].
      rewrite (read_body_success _ _ _ _ _ _ _ Hrq Herr), Hvs.
      eexists; split; [reflexivity|]. unfold read_report. destruct (Unsigned args); reflexivity.
  - apply write_body_shape.
Qed.

Lemma count_events_app f (t1 t2 : list Event) :
  count_events f (t1 ++ t2) = (count_events f t1 + count_events f t2)%nat.
Proof. unfold count_events. rewrite List.filter_app, length_app. reflexivity. Qed.

Lemma count_passes body interval rq :
  (forall n, exists line, body n = ([Call rq; line], None) /\ is_line line = true) ->
  forall m k,
  let t := concat (map (pass_events body interval) (seq k m)) in
  count_events is_call t = m /\ count_events is_line t = m /\ count_events is_sleep t = m.
Proof.
  intros Hshape. induction m as [|m IH]; intros k; [repeat split|].
  cbn [seq map concat]. cbv zeta. rewrite !count_events_app.
  destruct (IH (S k)) as (Hc & Hl & Hs). cbv zeta in Hc, Hl, Hs. rewrite Hc, Hl, Hs.
  destruct (Hshape k) as (line & Hb & Hline).
  unfold pass_events. rewrite Hb. unfold count_events. cbn [fst app List.filter is_call is_sleep].
  rewrite Hline. destruct line; try discriminate Hline. repeat split.
Qed.

(** X1.  The repeat count, for every write kind and for every read kind
    whose successful replies all decode: [repeat = N > 0] makes exactly [N]
    passes, each with one request, one reported outcome and one sleep, and
    then returns; [repeat <= 0] is still running after any number of
    passes, each of them made. *)
Theorem X1_repeat_count_when_every_pass_returns
    (args : ModbusArgs) (client : Client) (rq : Request) :
  operation_request args = Some rq ->
  (forall n, is_read rq = true -> err (client n rq) = None ->
     exists vs, decode (Unsigned args) (results (client n rq)) (Z.to_nat (Count args)) = Ok vs) ->
  (0 < Repeat args < 2 ^ 63 ->
   forall extra, exists t,
     dispatch args client (Z.to_nat (Repeat args) + extra) = Some (t, Returned) /\
     count_events is_call t = Z.to_nat (Repeat args) /\
     count_events is_line t = Z.to_nat (Repeat args) /\
     count_events is_sleep t = Z.to_nat (Repeat args)) /\
  (Repeat args <= 0 ->
   forall fuel, exists t i,
     dispatch args client fuel = Some (t, Running i fuel) /\
     count_events is_call t = fuel /\
     count_events is_line t = fuel /\
     count_events is_sleep t = fuel).
Proof.
  intros Hrq Hdec.
  destruct (dispatch_loop args client rq Hrq) as (body & Hloop & Hbody).
  pose proof (pass_shape args client rq body Hbody Hdec) as Hshape.
  assert (Hret : forall n, snd (body n) = None)
    by (intros n; destruct (Hshape n) as (line & -> & _); reflexivity).
  split.
  - intros Hr extra. eexists. rewrite Hloop.
    rewrite (for_loop_bounded body (Repeat args) (Interval args) Hret extra Hr).
    split; [reflexivity|].
    apply (count_passes body (Interval args) rq Hshape).
  - intros Hr fuel.
    destruct (for_loop_unbounded_from body (Repeat args) (Interval args) Hret Hr fuel 0 0%nat)
      as [i Hi].
    eexists _, i. rewrite Hloop, Hi.
    split; [reflexivity|].
    apply (count_passes body (Interval args) rq Hshape).
Qed.

Lemma X1_repeat_count_when_every_pass_returns_witness :
  exists t,
    dispatch (sample_args "write_single_register" 1 3 false) (timeout_at 1 []) (3 + 2) =
      Some (t, Returned) /\
    count_events is_call t = 3%nat /\
    count_events is_line t = 3%nat /\
    count_events is_sleep t = 3%nat.
Proof.
  refine (proj1 (X1_repeat_count_when_every_pass_returns
                   (sample_args "write_single_register" 1 3 false) (timeout_at 1 [])
                   (WriteSingleRegister 0 0) eq_refl _) _ 2%nat).
  - intros n Hread. discriminate Hread.
  - vm_compute. split; reflexivity.
Defined.

(** C2, at an input where the code departs from it.  A request for one
    holding register, repeated twice, whose reply carries two registers: the
    first pass panics on [values[1]] before reporting anything, the deferred
    close runs and the process ends, so no second pass is made. *)
Theorem C2_read_loop_ended_by_decode_panic (fuel : nat) :
  main (sample_args "read_holding_registers" 1 2 true) "0" []
       (steady_client [x00; x01; x00; x02]) (S fuel) =
    ([NewTCPClientHandler "plc" 502 1; Call (ReadHoldingRegisters 0 1); Close],
     Crashed IndexOutOfRange).
Proof. reflexivity. Qed.

(* ===================================================================== *)
(** ** Claims about the dispatch *)
(* ===================================================================== *)

(** Every event of a loop is a sleep or an event of one of its passes. *)
Lemma for_loop_events body repeat interval (P : Event -> Prop) :
  (forall n ev, In ev (fst (body n)) -> P ev) ->
  (forall d, P (Sleep d)) ->
  forall fuel i n ev, In ev (fst (for_loop body repeat interval fuel i n)) -> P ev.
Proof.
  intros Hbody Hsleep.
  induction fuel as [|fuel IH]; intros i n ev Hin; cbn [for_loop] in Hin.
  - destruct (loop_cond repeat i); destruct Hin.
  - destruct (loop_cond repeat i); [|destruct Hin].
    destruct (body n) as [evs [p|]] eqn:Hb.
    + apply (Hbody n). rewrite Hb. exact Hin.
    + destruct (for_loop body repeat interval fuel (int_add i 1) (S n)) as [rest st] eqn:Hk.
      cbn [fst] in Hin. apply in_app_or in Hin. destruct Hin as [Hin|[<-|Hin]].
      * apply (Hbody n). rewrite Hb. exact Hin.
      * apply Hsleep.
      * apply (IH (int_add i 1) (S n)). rewrite Hk. exact Hin.
Qed.

(** The first pass is always made: [repeat <= 0 || 0 < repeat]. *)
Lemma loop_cond_zero repeat : loop_cond repeat 0 = true.
Proof.
  unfold loop_cond. destruct (repeat <=? 0) eqn:E; [reflexivity|].
  apply Z.leb_gt in E. apply Z.ltb_lt. exact E.
Qed.

(** C9.  For every value [v], [write_single_coil] hands [v] to the
    transport's write-single-coil request as it is: the operation named
    "write_single_coil" runs [writeSingleCoil] on [args.Value], every request
    that function makes is the write of [v] at the address, whatever [v] is,
    and the first pass, which is always made, makes it. *)
Theorem C9_single_coil_value_passed_through
    (client : Client) (address v repeat interval : Z) (fuel : nat) :
  (forall server port unit count values unsigned,
     dispatch (mkArgs server port unit "write_single_coil" address count v values
                      repeat interval unsigned) client fuel =
       Some (writeSingleCoil client address v repeat interval fuel)) /\
  (forall rq, In (Call rq) (fst (writeSingleCoil client address v repeat interval fuel)) ->
     rq = WriteSingleCoil address v) /\
  (exists rest st,
     writeSingleCoil client address v repeat interval (S fuel) =
       (Call (WriteSingleCoil address v) :: rest, st)).
Proof.
  split; [reflexivity|]. split.
  - intros rq Hin. unfold writeSingleCoil in Hin.
    apply (for_loop_events _ _ _
             (fun ev => forall rq', ev = Call rq' -> rq' = WriteSingleCoil address v))
      with (rq' := rq) in Hin; [exact Hin| | |reflexivity].
    + intros n ev Hev rq' ->.
      destruct (write_body_shape client (WriteSingleCoil address v)
                  "Successfully wrote single coil: %v" (AUint16 v) n) as (line & Hb & Hl).
      rewrite Hb in Hev. destruct Hev as [Hev|[Hev|[]]].
      * injection Hev as <-. reflexivity.
      * subst line. discriminate Hl.
    + intros d rq' Hd. discriminate Hd.
  - unfold writeSingleCoil.
    destruct (write_body_shape client (WriteSingleCoil address v)
                "Successfully wrote single coil: %v" (AUint16 v) 0) as (line & Hb & _).
    apply (for_loop_one_starts _ _ _ _ _ _ _ _ _ (loop_cond_zero repeat) Hb).
Qed.

Lemma C9_single_coil_value_passed_through_witness :
  In (Call (WriteSingleCoil 7 12345))
     (fst (writeSingleCoil (steady_client []) 7 12345 2 1000 3)) /\
  WriteSingleCoil 7 12345 = WriteSingleCoil 7 12345.
Proof.
  split; [left; reflexivity|].
  apply (proj1 (proj2 (C9_single_coil_value_passed_through
                         (steady_client []) 7 12345 2 1000 3))).
  left. reflexivity.
Defined.

Lemma parseFlags_fields (parsed args : ModbusArgs) (valueStr : string) (values : list string) :
  parseFlags parsed valueStr values = inr args ->
  Server args = Server parsed /\ Port args = Port parsed /\ UnitID args = UnitID parsed /\
  Operation args = Operation parsed.
Proof.
  unfold parseFlags. intros H.
  destruct (String.eqb (Server parsed) ""); [discriminate|].
  destruct (parse_value (Unsigned parsed) valueStr); [|discriminate].
  destruct (parse_values _ _ _ _); [discriminate|].
  injection H as <-. repeat split.
Qed.

Lemma dispatch_default (args : ModbusArgs) (client : Client) (fuel : nat) :
  ~ In (Operation args) supported_operations -> dispatch args client fuel = None.
Proof.
  intros Hnot. unfold dispatch.
  repeat match goal with
         | |- context [String.eqb ?a ?b] =>
             destruct (String.eqb_spec a b) as [Heq|_];
             [exfalso; apply Hnot; rewrite Heq; unfold supported_operations;
              cbn [In]; tauto|]
         end.
  reflexivity.
Qed.

(** C6.  For every operation name outside the eight supported ones, [main]
    ends in a fatal error, whatever the transport would answer and however
    long the run is observed: either [parseFlags] already ended the process,
    with no event at all, or the only event is the allocation of the client
    handler and the process ends with "Invalid operation".  No request is
    made, so nothing is sent or connected, and no pass of a loop is made. *)
Theorem C6_unsupported_operation_rejected
    (parsed : ModbusArgs) (valueStr : string) (values : list string)
    (client : Client) (fuel : nat) :
  ~ In (Operation parsed) supported_operations ->
  let run := main parsed valueStr values client fuel in
  ((exists line, parseFlags parsed valueStr values = inl line /\ run = ([], Exited line)) \/
   run = ([NewTCPClientHandler (Server parsed) (Port parsed) (UnitID parsed mod 256)],
          Exited (Fatalf "Invalid operation: %s" (AStr (Operation parsed))))) /\
  count_events is_call (fst run) = 0%nat /\
  count_events is_line (fst run) = 0%nat /\
  count_events is_sleep (fst run) = 0%nat /\
  operation_request parsed = None.
Proof.
  intros Hnot run.
  assert (Hrun :
    (exists line, parseFlags parsed valueStr values = inl line /\ run = ([], Exited line)) \/
    run = ([NewTCPClientHandler (Server parsed) (Port parsed) (UnitID parsed mod 256)],
           Exited (Fatalf "Invalid operation: %s" (AStr (Operation parsed))))).
  { subst run. unfold main.
    destruct (parseFlags parsed valueStr values) as [line|args] eqn:Hp.
    - left. exists line. split; reflexivity.
    - right. destruct (parseFlags_fields _ _ _ _ Hp) as (Hs & Hport & Hu & Hop).
      rewrite dispatch_default by (rewrite Hop; exact Hnot).
      unfold createModbusClient. rewrite Hs, Hport, Hu, Hop. reflexivity. }
  split; [exact Hrun|].
  assert (Hreq : operation_request parsed = None).
  { unfold operation_request.
    repeat match goal with
           | |- context [String.eqb ?a ?b] =>
               destruct (String.eqb_spec a b) as [Heq|_];
               [exfalso; apply Hnot; rewrite Heq; unfold supported_operations;
                cbn [In]; tauto|]
           end.
    reflexivity. }
  destruct Hrun as [(line & _ & ->)| ->]; repeat split; exact Hreq.
Qed.

Lemma C6_unsupported_operation_rejected_witness :
  let run := main (sample_args "read_foo" 1 1 false) "0" []
                  (steady_client [x00; x01]) 5 in
  ((exists line, parseFlags (sample_args "read_foo" 1 1 false) "0" [] = inl line /\
                 run = ([], Exited line)) \/
   run = ([NewTCPClientHandler "plc" 502 (1 mod 256)],
          Exited (Fatalf "Invalid operation: %s" (AStr "read_foo")))) /\
  count_events is_call (fst run) = 0%nat /\
  count_events is_line (fst run) = 0%nat /\
  count_events is_sleep (fst run) = 0%nat /\
  operation_request (sample_args "read_foo" 1 1 false) = None.
Proof.
  apply (C6_unsupported_operation_rejected (sample_args "read_foo" 1 1 false) "0" []
           (steady_client [x00; x01]) 5).
  vm_compute. intros H. repeat (destruct H as [H|H]; [discriminate H|]). exact H.
Defined.

(* ===================================================================== *)
(** ** Parsing the write values *)
(* ===================================================================== *)

Lemma digit_of_range (c : ascii) (d : Z) : digit_of c = Some d -> 0 <= d <= 9.
Proof.
  unfold digit_of. intros H.
  destruct ((48 <=? Z.of_N (N_of_ascii c)) && (Z.of_N (N_of_ascii c) <=? 57)) eqn:E;
    [|discriminate].
  injection H as <-. apply andb_true_iff in E. destruct E as [E1 E2].
  apply Z.leb_le in E1. apply Z.leb_le in E2. lia.
Qed.

Lemma digits_value_ge (s : string) :
  forall acc n, 0 <= acc -> digits_value s acc = Some n -> acc <= n.
Proof.
  induction s as [|c s IH]; intros acc n Hacc H; cbn [digits_value] in H.
  - injection H as <-. lia.
  - destruct (digit_of c) as [d|] eqn:Hd; [|discriminate].
    apply digit_of_range in Hd. apply IH in H; lia.
Qed.

(** The digit loop computes the denoted number, or reports a range error
    when that number is above [maxVal]. *)
Lemma scan_digits_value (s : string) (maxVal : Z) :
  forall acc n, 0 <= acc <= maxVal -> digits_value s acc = Some n ->
  scan_digits s maxVal acc =
    if n <=? maxVal then (n, None) else (maxVal, Some ErrRange).
Proof.
  induction s as [|c s IH]; intros acc n Hacc H;
    cbn [digits_value] in H; cbn [scan_digits].
  - injection H as <-.
    destruct (acc <=? maxVal) eqn:E; [reflexivity|apply Z.leb_gt in E; lia].
  - destruct (digit_of c) as [d|] eqn:Hd; [|discriminate].
    pose proof (digit_of_range c d Hd) as Hr.
    destruct (maxVal <? acc * 10 + d) eqn:E.
    + apply Z.ltb_lt in E. apply digits_value_ge in H; [|lia].
      destruct (n <=? maxVal) eqn:E'; [apply Z.leb_le in E'; lia|reflexivity].
    + apply Z.ltb_ge in E. apply IH; [lia|exact H].
Qed.

Lemma ParseUint_value (s : string) (n : Z) :
  unsigned_decimal s = Some n ->
  0 <= n /\
  ParseUint s 16 = if n <=? 65535 then (n, None) else (65535, Some ErrRange).
Proof.
  unfold unsigned_decimal, ParseUint. destruct s as [|c s]; [discriminate|].
  intros H. split.
  - apply digits_value_ge in H; lia.
  - apply (scan_digits_value (String c s) (2 ^ 16 - 1) 0 n); [lia|exact H].
Qed.

Lemma ParseInt_of_magnitude (neg : bool) (digits : string) (un : Z) :
  unsigned_decimal digits = Some un ->
  ParseInt_magnitude neg digits 16 =
  let n := if neg then - un else un in
  if (-32768 <=? n) && (n <=? 32767) then (n, None)
  else (if neg then -32768 else 32767, Some ErrRange).
Proof.
  intros H. unfold ParseInt_magnitude.
  destruct (ParseUint_value digits un H) as [Hpos ->].
  change (2 ^ (16 - 1)) with 32768. cbv zeta.
  destruct (un <=? 65535) eqn:E.
  - destruct neg; cbn [negb andb].
    + destruct (32768 <? un) eqn:E1; [apply Z.ltb_lt in E1|apply Z.ltb_ge in E1].
      * replace ((-32768 <=? - un) && (- un <=? 32767)) with false; [reflexivity|].
        symmetry. apply andb_false_iff. left. apply Z.leb_gt. lia.
      * replace ((-32768 <=? - un) && (- un <=? 32767)) with true; [reflexivity|].
        symmetry. apply andb_true_iff. split; apply Z.leb_le; lia.
    + destruct (32768 <=? un) eqn:E1; [apply Z.leb_le in E1|apply Z.leb_gt in E1].
      * replace ((-32768 <=? un) && (un <=? 32767)) with false; [reflexivity|].
        symmetry. apply andb_false_iff. right. apply Z.leb_gt. lia.
      * replace ((-32768 <=? un) && (un <=? 32767)) with true; [reflexivity|].
        symmetry. apply andb_true_iff. split; apply Z.leb_le; lia.
  - apply Z.leb_gt in E. destruct neg; cbn [negb andb].
    + replace ((-32768 <=? - un) && (- un <=? 32767)) with false; [reflexivity|].
      symmetry. apply andb_false_iff. left. apply Z.leb_gt. lia.
    + replace ((-32768 <=? un) && (un <=? 32767)) with false; [reflexivity|].
      symmetry. apply andb_false_iff. right. apply Z.leb_gt. lia.
Qed.

(** [ParseInt] with bit size 16 accepts exactly the decimals that denote a
    number of [-32768, 32767]; the others are range errors. *)
Lemma ParseInt_value (s : string) (n : Z) :
  signed_decimal s = Some n ->
  ParseInt s 16 =
    if (-32768 <=? n) && (n <=? 32767) then (n, None)
    else (if n <? 0 then -32768 else 32767, Some ErrRange).
Proof.
  unfold signed_decimal, ParseInt. destruct s as [|c rest]; [discriminate|].
  destruct (Ascii.eqb c "+") eqn:Eplus; [|destruct (Ascii.eqb c "-") eqn:Eminus].
  - intros H. rewrite (ParseInt_of_magnitude false rest n H). cbv zeta.
    destruct (ParseUint_value rest n H) as [Hpos _].
    destruct ((-32768 <=? n) && (n <=? 32767)); [reflexivity|].
    destruct (n <? 0) eqn:E; [apply Z.ltb_lt in E; lia|reflexivity].
  - intros H. destruct (unsigned_decimal rest) as [un|] eqn:Hun; [|discriminate].
    injection H as <-. rewrite (ParseInt_of_magnitude true rest un Hun). cbv zeta.
    destruct (ParseUint_value rest un Hun) as [Hpos _].
    destruct ((-32768 <=? - un) && (- un <=? 32767)) eqn:E; [reflexivity|].
    destruct (- un <? 0) eqn:E'; [reflexivity|].
    apply Z.ltb_ge in E'. assert (un = 0) by lia. subst un. discriminate E.
  - intros H. rewrite (ParseInt_of_magnitude false (String c rest) n H). cbv zeta.
    destruct (ParseUint_value (String c rest) n H) as [Hpos _].
    destruct ((-32768 <=? n) && (n <=? 32767)); [reflexivity|].
    destruct (n <? 0) eqn:E; [apply Z.ltb_lt in E; lia|reflexivity].
Qed.

Lemma land_65535 (v : Z) : uint16 (Z.land v 65535) = v mod 65536.
Proof.
  unfold uint16. change 65535 with (Z.ones 16).
  rewrite Z.land_ones by lia. change (2 ^ 16) with 65536.
  apply Z.mod_mod. lia.
Qed.

(** A signed value: rejected outside [-32768, 32767], stored as its low 16
    bits inside. *)
Lemma parse_value_signed (s : string) (n : Z) :
  signed_decimal s = Some n ->
  parse_value false s =
    if (-32768 <=? n) && (n <=? 32767) then Some (n mod 65536) else None.
Proof.
  intros H. unfold parse_value. rewrite (ParseInt_value s n H).
  destruct ((-32768 <=? n) && (n <=? 32767)); [|reflexivity].
  rewrite land_65535. reflexivity.
Qed.

(** The loop stops at the first string that is refused and names it. *)
Lemma parse_values_first_refused (unsigned : bool) (values : list string) :
  forall (i : nat) (out : list Z) (k : nat) (s : string),
  values !! k = Some s -> parse_value unsigned s = None ->
  (forall j s', (j < k)%nat -> values !! j = Some s' -> parse_value unsigned s' <> None) ->
  parse_values unsigned values i out =
    inl (Fatalf "Invalid value in 'values': %s" (AStr s)).
Proof.
  induction values as [|s0 values IH]; intros i out k s Hk Hs Hbefore.
  - destruct k; discriminate Hk.
  - cbn [parse_values]. destruct k as [|k].
    + injection Hk as <-. rewrite Hs. reflexivity.
    + destruct (parse_value unsigned s0) as [v0|] eqn:H0.
      * apply (IH (S i) _ k s Hk Hs).
        intros j s' Hj Hs'. apply (Hbefore (S j) s'); [lia|exact Hs'].
      * exfalso. apply (Hbefore 0%nat s0); [lia|reflexivity|exact H0].
Qed.

Lemma parse_values_rejects (s : string) (unsigned : bool) (values : list string) :
  In s values -> parse_value unsigned s = None ->
  forall i out, exists line, parse_values unsigned values i out = inl line.
Proof.
  intros Hin Hs. induction values as [|v values IH]; intros i out; [destruct Hin|].
  cbn [parse_values]. destruct (parse_value unsigned v) as [x|] eqn:Hv.
  - destruct Hin as [->|Hin]; [congruence|]. apply IH. exact Hin.
  - eexists. reflexivity.
Qed.

(** C7 (as amended).  A signed input that denotes a number outside
    [-32768, 32767] is rejected: [ParseInt] with bit size 16 reports a range
    error, and whether the input is [--value] or one of [--values] the
    process ends in a fatal line before any event, so nothing is sent.  When
    the server is given the line is "Invalid value" naming the input if it is
    [--value], and "Invalid value in 'values'" naming the input if [--value]
    is accepted and the input is the first refused string of [--values].  A
    signed input inside the range is stored as its low 16 bits, the
    two's-complement pattern of the number. *)
Theorem C7_signed_value_outside_int16_rejected (s : string) (n : Z) :
  signed_decimal s = Some n ->
  ((n < -32768 \/ 32767 < n) ->
     snd (ParseInt s 16) = Some ErrRange /\
     parse_value false s = None /\
     (forall parsed valueStr values client fuel,
        Unsigned parsed = false -> valueStr = s \/ In s values ->
        exists line, main parsed valueStr values client fuel = ([], Exited line)) /\
     (forall parsed values client fuel,
        Unsigned parsed = false -> Server parsed <> ""%string ->
        main parsed s values client fuel =
          ([], Exited (Fatalf "Invalid value: %s" (AStr s)))) /\
     (forall parsed valueStr values client fuel k,
        Unsigned parsed = false -> Server parsed <> ""%string ->
        parse_value false valueStr <> None ->
        values !! k = Some s ->
        (forall j s', (j < k)%nat -> values !! j = Some s' ->
           parse_value false s' <> None) ->
        main parsed valueStr values client fuel =
          ([], Exited (Fatalf "Invalid value in 'values': %s" (AStr s))))) /\
  (-32768 <= n <= 32767 ->
     parse_value false s = Some (n mod 65536) /\
     0 <= n mod 65536 <= 65535 /\ int16 (n mod 65536) = n).
Proof.
  intros Hs. pose proof (parse_value_signed s n Hs) as Hp. split.
  - intros Hout.
    assert (Hrange : (-32768 <=? n) && (n <=? 32767) = false)
      by (apply andb_false_iff; destruct Hout; [left|right]; apply Z.leb_gt; lia).
    rewrite Hrange in Hp.
    split; [rewrite (ParseInt_value s n Hs), Hrange; reflexivity|].
    split; [exact Hp|]. split; [|split].
    + intros parsed valueStr values client fuel Hu Hwhere.
      unfold main, parseFlags. rewrite Hu.
      destruct (String.eqb (Server parsed) ""); [eexists; reflexivity|].
      destruct (parse_value false valueStr) as [v|] eqn:Hv; [|eexists; reflexivity].
      destruct Hwhere as [->|Hin]; [congruence|].
      destruct (parse_values_rejects s false values Hin Hp 0%nat
                  (replicate (length values) 0)) as [line ->].
      eexists; reflexivity.
    + intros parsed values client fuel Hu Hsrv.
      unfold main, parseFlags. rewrite Hu, Hp.
      destruct (String.eqb_spec (Server parsed) "") as [Hempty|_]; [contradiction|].
      reflexivity.
    + intros parsed valueStr values client fuel k Hu Hsrv Hvalue Hk Hfirst.
      unfold main, parseFlags. rewrite Hu.
      destruct (String.eqb_spec (Server parsed) "") as [Hempty|_]; [contradiction|].
      destruct (parse_value false valueStr) as [v|]; [|contradiction].
      rewrite (parse_values_first_refused false values 0 _ k s Hk Hp Hfirst).
      reflexivity.
  - intros Hin.
    replace ((-32768 <=? n) && (n <=? 32767)) with true in Hp
      by (symmetry; apply andb_true_iff; split; apply Z.leb_le; lia).
    split; [exact Hp|].
    assert (Hm : 0 <= n mod 65536 < 65536) by (apply Z.mod_pos_bound; lia).
    split; [lia|].
    unfold int16. rewrite Z.mod_mod by lia.
    destruct (Z.lt_ge_cases n 0) as [Hneg|Hpos].
    + assert (Hw : n mod 65536 = n + 65536).
      { replace n with ((n + 65536) + (-1) * 65536) at 1 by lia.
        rewrite Z.mod_add by lia. apply Z.mod_small. lia. }
      rewrite Hw.
      destruct (n + 65536 <? 32768) eqn:E; [apply Z.ltb_lt in E; lia|lia].
    + rewrite Z.mod_small by lia.
      destruct (n <? 32768) eqn:E; [reflexivity|apply Z.ltb_ge in E; lia].
Qed.

Lemma C7_signed_value_outside_int16_rejected_witness :
  snd (ParseInt "40000" 16) = Some ErrRange /\
  main (sample_args "write_single_register" 1 1 false) "40000" [] (steady_client []) 3 =
    ([], Exited (Fatalf "Invalid value: %s" (AStr "40000"))) /\
  main (sample_args "write_multiple_registers" 1 1 false) "0" ["7"; "40000"; "x"]%string
       (steady_client []) 3 =
    ([], Exited (Fatalf "Invalid value in 'values': %s" (AStr "40000"))).
Proof.
  assert (Hout : 40000 < -32768 \/ 32767 < 40000) by (right; lia).
  destruct (proj1 (C7_signed_value_outside_int16_rejected "40000" 40000 eq_refl) Hout)
    as (Hrange & _ & _ & Hvalue & Hvalues).
  split; [exact Hrange|]. split.
  - apply Hvalue; [reflexivity|discriminate].
  - apply (Hvalues _ _ _ _ _ 1%nat); [reflexivity|discriminate|discriminate|reflexivity|].
    intros j s' Hj Hs'. assert (j = 0%nat) by lia. subst j.
    injection Hs' as <-. discriminate.
Defined.

(** C7 as stated fails: the decimal 40000 is outside [-32768, 32767] and is
    not wrapped to a 16-bit pattern but refused. *)
Lemma C7_counterexample :
  ~ (forall (s : string) (n : Z),
       signed_decimal s = Some n -> n < -32768 \/ 32767 < n ->
       parse_value false s = Some (n mod 65536)).
Proof.
  intros H.
  assert (Hout : 40000 < -32768 \/ 32767 < 40000) by (right; lia).
  specialize (H "40000"%string 40000 eq_refl Hout).
  vm_compute in H. discriminate H.
Qed.

(** C8.  For every sequence of write values the data block is built without
    a panic and consists of the two bytes [v >> 8] and [v] of each value, in
    input order, two bytes per value; for a 16-bit value these two bytes are
    its big-endian form.  A signed input that denotes a negative number of
    the range is stored as [65536 + n], its two's-complement pattern.  In
    particular [write_multiple_registers] with the values "1" and "-1" in
    signed mode requests the data bytes [00 01 FF FF]. *)
Theorem C8_write_values_encoded_big_endian (values : list Z) :
  encode values = Ok (flat_map be_bytes values) /\
  length (flat_map be_bytes values) = (2 * length values)%nat /\
  (forall v, be_bytes v = [byte_of (Z.shiftr v 8); byte_of v]) /\
  (forall v, 0 <= v <= 65535 -> be16 (byte_of (Z.shiftr v 8)) (byte_of v) = v) /\
  (forall s n, signed_decimal s = Some n -> -32768 <= n < 0 ->
     parse_value false s = Some (65536 + n)) /\
  (forall client fuel, exists rest st,
     main (sample_args "write_multiple_registers" 1 1 false) "0" ["1"; "-1"]%string
          client (S fuel) =
       (NewTCPClientHandler "plc" 502 1
          :: Call (WriteMultipleRegisters 0 2 [x00; x01; xff; xff]) :: rest, st)).
Proof.
  split; [apply encode_flat_map|].
  split; [apply length_flat_map_be_bytes|].
  split; [reflexivity|].
  split; [apply be16_be_bytes|].
  split.
  - intros s n Hs Hn. rewrite (parse_value_signed s n Hs).
    replace ((-32768 <=? n) && (n <=? 32767)) with true
      by (symmetry; apply andb_true_iff; split; apply Z.leb_le; lia).
    f_equal. replace n with ((65536 + n) + (-1) * 65536) at 1 by lia.
    rewrite Z.mod_add by lia. apply Z.mod_small. lia.
  - intros client fuel.
    destruct (write_body_shape client (WriteMultipleRegisters 0 2 [x00; x01; xff; xff])
                "Successfully wrote multiple registers: %v" (AUint16s [1; 65535]) 0)
      as (line & Hb & _).
    destruct (for_loop_one_starts _ 1 1000 fuel 0 0%nat _ _ _ (loop_cond_zero 1) Hb)
      as (rest & st & Hloop).
    assert (Hd : dispatch (mkArgs "plc" 502 1 "write_multiple_registers" 0 1 0 [1; 65535]
                                  1 1000 false) client (S fuel) =
                 Some (Call (WriteMultipleRegisters 0 2 [x00; x01; xff; xff]) :: rest, st)).
    { rewrite <- Hloop. reflexivity. }
    change (main (sample_args "write_multiple_registers" 1 1 false) "0" ["1"; "-1"]%string
                 client (S fuel))
      with (match dispatch (mkArgs "plc" 502 1 "write_multiple_registers" 0 1 0 [1; 65535]
                                   1 1000 false) client (S fuel) with
            | None => ([NewTCPClientHandler "plc" 502 1],
                       Exited (Fatalf "Invalid operation: %s" (AStr "write_multiple_registers")))
            | Some (evs, Running i n) => (NewTCPClientHandler "plc" 502 1 :: evs, Running i n)
            | Some (evs, st) => (NewTCPClientHandler "plc" 502 1 :: evs ++ [Close], st)
            end).
    rewrite Hd. destruct st; eexists _, _; reflexivity.
Qed.

Lemma C8_write_values_encoded_big_endian_witness :
  parse_value false "-1" = Some (65536 + -1) /\
  be16 (byte_of (Z.shiftr 65535 8)) (byte_of 65535) = 65535.
Proof.
  split.
  - apply (proj1 (proj2 (proj2 (proj2 (proj2
             (C8_write_values_encoded_big_endian [1; 65535]))))) "-1"%string (-1));
      [reflexivity|lia].
  - apply (proj1 (proj2 (proj2 (proj2
             (C8_write_values_encoded_big_endian [1; 65535])))) 65535). lia.
Defined.

(* ===================================================================== *)
(** ** Which inputs [parseFlags] accepts *)
(* ===================================================================== *)

(** The digit loop on a string that denotes no number: one of its two
    errors, with the value that [ParseUint] returns beside it. *)
Lemma scan_digits_invalid (s : string) (maxVal : Z) :
  forall acc, digits_value s acc = None ->
  scan_digits s maxVal acc = (0, Some ErrSyntax) \/
  scan_digits s maxVal acc = (maxVal, Some ErrRange).
Proof.
  induction s as [|c s IH]; intros acc H; cbn [digits_value] in H; [discriminate|].
  cbn [scan_digits]. destruct (digit_of c) as [d|]; [|left; reflexivity].
  destruct (maxVal <? acc * 10 + d); [right; reflexivity|].
  apply IH. exact H.
Qed.

Lemma ParseUint_invalid (s : string) :
  unsigned_decimal s = None ->
  ParseUint s 16 = (0, Some ErrSyntax) \/ ParseUint s 16 = (65535, Some ErrRange).
Proof.
  unfold unsigned_decimal, ParseUint. destruct s as [|c s]; [left; reflexivity|].
  intros H. apply (scan_digits_invalid (String c s) (2 ^ 16 - 1) 0 H).
Qed.

Lemma ParseInt_magnitude_invalid (neg : bool) (digits : string) :
  unsigned_decimal digits = None ->
  exists v e, ParseInt_magnitude neg digits 16 = (v, Some e).
Proof.
  intros H. unfold ParseInt_magnitude.
  destruct (ParseUint_invalid digits H) as [-> | ->]; [eexists _, _; reflexivity|].
  destruct neg; eexists _, _; reflexivity.
Qed.

Lemma ParseInt_invalid (s : string) :
  signed_decimal s = None -> exists v e, ParseInt s 16 = (v, Some e).
Proof.
  unfold signed_decimal, ParseInt. destruct s as [|c rest]; [eexists _, _; reflexivity|].
  destruct (Ascii.eqb c "+"); [apply ParseInt_magnitude_invalid|].
  destruct (Ascii.eqb c "-"); [|apply ParseInt_magnitude_invalid].
  intros H. apply ParseInt_magnitude_invalid.
  destruct (unsigned_decimal rest); [discriminate H|reflexivity].
Qed.

Lemma parse_value_unsigned (s : string) (n : Z) :
  unsigned_decimal s = Some n ->
  0 <= n /\ parse_value true s = if n <=? 65535 then Some n else None.
Proof.
  intros H. destruct (ParseUint_value s n H) as [Hpos Hp]. split; [exact Hpos|].
  unfold parse_value. rewrite Hp.
  destruct (n <=? 65535) eqn:E; [|reflexivity].
  apply Z.leb_le in E. unfold uint16. rewrite Z.mod_small by lia. reflexivity.
Qed.

(** X2.  The values [parseFlags] takes.  In signed mode a string is accepted
    exactly when it is a decimal with an optional sign that denotes a number
    of [-32768, 32767], and is stored as that number modulo 65536; under
    [--unsigned] exactly when it is a decimal without sign that denotes a
    number of [0, 65535], stored as it is.  Everything else, a sign in
    unsigned mode included, is refused. *)
Theorem X2_parse_value_accepts (unsigned : bool) (s : string) (v : Z) :
  parse_value unsigned s = Some v <->
  exists n,
    (if unsigned then unsigned_decimal s else signed_decimal s) = Some n /\
    (if unsigned then 0 <= n <= 65535 else -32768 <= n <= 32767) /\
    v = n mod 65536.
Proof.
  destruct unsigned.
  - destruct (unsigned_decimal s) as [n|] eqn:Hs.
    + destruct (parse_value_unsigned s n Hs) as [Hpos Hp]. rewrite Hp. split.
      * destruct (n <=? 65535) eqn:E; [|discriminate]. apply Z.leb_le in E.
        intros H. injection H as <-. exists n.
        split; [reflexivity|]. split; [lia|]. rewrite Z.mod_small by lia. reflexivity.
      * intros (m & Hm & Hr & ->). injection Hm as <-.
        replace (n <=? 65535) with true by (symmetry; apply Z.leb_le; lia).
        rewrite Z.mod_small by lia. reflexivity.
    + split; [|intros (m & Hm & _); discriminate Hm].
      unfold parse_value. destruct (ParseUint_invalid s Hs) as [-> | ->]; discriminate.
  - destruct (signed_decimal s) as [n|] eqn:Hs.
    + rewrite (parse_value_signed s n Hs). split.
      * destruct ((-32768 <=? n) && (n <=? 32767)) eqn:E; [|discriminate].
        apply andb_true_iff in E. destruct E as [E1 E2].
        apply Z.leb_le in E1. apply Z.leb_le in E2.
        intros H. injection H as <-. exists n. repeat split; lia.
      * intros (m & Hm & Hr & ->). injection Hm as <-.
        replace ((-32768 <=? n) && (n <=? 32767)) with true; [reflexivity|].
        symmetry. apply andb_true_iff. split; apply Z.leb_le; lia.
    + split; [|intros (m & Hm & _); discriminate Hm].
      unfold parse_value. destruct (ParseInt_invalid s Hs) as (x & e & ->). discriminate.
Qed.

Lemma X2_parse_value_accepts_witness :
  parse_value false "-32768" = Some 32768 /\ parse_value true "65535" = Some 65535.
Proof.
  split.
  - apply (proj2 (X2_parse_value_accepts false "-32768" 32768)).
    exists (-32768). repeat split; lia.
  - apply (proj2 (X2_parse_value_accepts true "65535" 65535)).
    exists 65535. repeat split; lia.
Defined.

(** The loop over [--values]: when every string is accepted, the result has
    the length of [out], holds the value of the [k]-th string at index
    [i + k] and leaves the entries below [i] alone. *)
Lemma parse_values_accepts (unsigned : bool) (values : list string) :
  forall (i : nat) (out : list Z),
  (i + length values <= length out)%nat ->
  (forall s, In s values -> parse_value unsigned s <> None) ->
  exists vs : list Z,
    parse_values unsigned values i out = inr vs /\ length vs = length out /\
    (forall j, (j < i)%nat -> vs !! j = out !! j) /\
    (forall k s, values !! k = Some s ->
       exists v, parse_value unsigned s = Some v /\ vs !! (i + k)%nat = Some v).
Proof.
  induction values as [|s0 values IH]; intros i out Hlen Hall.
  - exists out. split; [reflexivity|]. split; [reflexivity|]. split; [reflexivity|].
    intros k s Hk. destruct k; discriminate Hk.
  - cbn [parse_values]. cbn [length] in Hlen.
    destruct (parse_value unsigned s0) as [v0|] eqn:H0;
      [|exfalso; apply (Hall s0); [left; reflexivity|exact H0]].
    destruct (IH (S i) (<[i := v0]> out)) as (vs & Hvs & Hl & Hlow & Hk).
    { rewrite length_insert. lia. }
    { intros s Hin. apply Hall. right. exact Hin. }
    exists vs. split; [exact Hvs|].
    rewrite length_insert in Hl. split; [exact Hl|]. split.
    + intros j Hj. rewrite Hlow by lia. apply list_lookup_insert_ne. lia.
    + intros k s Hs. destruct k as [|k].
      * injection Hs as <-. exists v0. split; [exact H0|].
        rewrite Nat.add_0_r, Hlow by lia. apply list_lookup_insert_eq. lia.
      * destruct (Hk k s Hs) as (v & Hv & Hat). exists v. split; [exact Hv|].
        replace (i + S k)%nat with (S i + k)%nat by lia. exact Hat.
Qed.

Lemma refused_below (unsigned : bool) (values : list string) (k : nat) :
  (forall j s, (j < k)%nat -> values !! j = Some s -> parse_value unsigned s <> None) \/
  (exists j s, (j < k)%nat /\ values !! j = Some s /\ parse_value unsigned s = None).
Proof.
  induction k as [|k [IH|(j & s & Hj & Hs & Hbad)]].
  - left. intros j s Hj. lia.
  - destruct (values !! k) as [s|] eqn:Hk.
    + destruct (parse_value unsigned s) as [v|] eqn:Hv.
      * left. intros j s' Hj Hs'. destruct (Nat.eq_dec j k) as [->|Hne].
        -- rewrite Hk in Hs'. injection Hs' as <-. congruence.
        -- apply (IH j s'); [lia|exact Hs'].
      * right. exists k, s. split; [lia|]. split; [exact Hk|exact Hv].
    + left. intros j s' Hj Hs'. destruct (Nat.eq_dec j k) as [->|Hne].
      * congruence.
      * apply (IH j s'); [lia|exact Hs'].
  - right. exists j, s. split; [lia|]. split; [exact Hs|exact Hbad].
Qed.

(** Among the refused strings of a list there is a first one. *)
Lemma first_refused (unsigned : bool) (values : list string) :
  forall k s, values !! k = Some s -> parse_value unsigned s = None ->
  exists k' s', (k' <= k)%nat /\ values !! k' = Some s' /\
    parse_value unsigned s' = None /\
    (forall j s'', (j < k')%nat -> values !! j = Some s'' ->
       parse_value unsigned s'' <> None).
Proof.
  induction k as [k IH] using lt_wf_ind. intros s Hk Hs.
  destruct (refused_below unsigned values k) as [Hnone|(j & s'' & Hj & Hjs & Hbad)].
  - exists k, s. split; [lia|]. split; [exact Hk|]. split; [exact Hs|]. exact Hnone.
  - destruct (IH j Hj s'' Hjs Hbad) as (k' & s' & Hle & Hk' & Hs' & Hfirst).
    exists k', s'. split; [lia|]. auto.
Qed.

(** X3.  What [parseFlags] returns.  It succeeds exactly when the server is
    not empty, [--value] is accepted and every string of [--values] is
    accepted; the arguments it returns then keep every other field, hold the
    value of [--value], and hold under [Values] one value per string of
    [--values], in the same order.  When it fails, the fatal line is chosen
    in this order: the missing server, the refused [--value], the first
    refused string of [--values]. *)
Theorem X3_parseFlags_result
    (args : ModbusArgs) (valueStr : string) (values : list string) :
  (forall args',
     parseFlags args valueStr values = inr args' ->
     Server args <> ""%string /\
     parse_value (Unsigned args) valueStr = Some (Value args') /\
     length (Values args') = length values /\
     (forall k s, values !! k = Some s ->
        exists v, parse_value (Unsigned args) s = Some v /\ Values args' !! k = Some v) /\
     Server args' = Server args /\ Port args' = Port args /\
     UnitID args' = UnitID args /\ Operation args' = Operation args /\
     Start args' = Start args /\ Count args' = Count args /\
     Repeat args' = Repeat args /\ Interval args' = Interval args /\
     Unsigned args' = Unsigned args) /\
  (Server args <> ""%string ->
   parse_value (Unsigned args) valueStr <> None ->
   (forall s, In s values -> parse_value (Unsigned args) s <> None) ->
   exists args', parseFlags args valueStr values = inr args') /\
  (Server args = ""%string ->
   parseFlags args valueStr values = inl (Fatal "Server address is required")) /\
  (Server args <> ""%string -> parse_value (Unsigned args) valueStr = None ->
   parseFlags args valueStr values = inl (Fatalf "Invalid value: %s" (AStr valueStr))) /\
  (forall k s,
     Server args <> ""%string -> parse_value (Unsigned args) valueStr <> None ->
     values !! k = Some s -> parse_value (Unsigned args) s = None ->
     (forall j s', (j < k)%nat -> values !! j = Some s' ->
        parse_value (Unsigned args) s' <> None) ->
     parseFlags args valueStr values =
       inl (Fatalf "Invalid value in 'values': %s" (AStr s))).
Proof.
  unfold parseFlags.
  destruct (String.eqb_spec (Server args) "") as [Hsrv|Hsrv].
  - split; [intros args' H; discriminate H|].
    split; [intros H; contradiction|].
    split; [reflexivity|].
    split; intros; contradiction.
  - destruct (parse_value (Unsigned args) valueStr) as [value|] eqn:Hv.
    + assert (Hdec : forall s, {parse_value (Unsigned args) s = None}
                                + {parse_value (Unsigned args) s <> None}).
      { intros s. destruct (parse_value (Unsigned args) s); [right|left]; congruence. }
      split; [|split; [|split; [|split]]].
      * intros args' H.
        destruct (parse_values (Unsigned args) values 0 (replicate (length values) 0))
          as [line|vs] eqn:Hvs; [discriminate H|].
        injection H as <-. cbn [Server Port UnitID Operation Start Count Value Values
                                Repeat Interval Unsigned].
        assert (Hall : forall s, In s values -> parse_value (Unsigned args) s <> None).
        { intros s Hin Hs. apply list_elem_of_In, list_elem_of_lookup in Hin.
          destruct Hin as [k Hk].
          destruct (first_refused (Unsigned args) values k s Hk Hs)
            as (k' & s' & Hle & Hk' & Hs' & Hfirst).
          rewrite (parse_values_first_refused _ values 0 _ k' s' Hk' Hs' Hfirst) in Hvs.
          discriminate Hvs. }
        destruct (parse_values_accepts (Unsigned args) values 0
                    (replicate (length values) 0)) as (vs' & Hvs' & Hl & _ & Hk);
          [rewrite length_replicate; lia|exact Hall|].
        rewrite Hvs in Hvs'. injection Hvs' as <-.
        rewrite length_replicate in Hl.
        repeat split; try assumption; try reflexivity.
      * intros _ _ Hall.
        destruct (parse_values_accepts (Unsigned args) values 0
                    (replicate (length values) 0)) as (vs' & -> & _);
          [rewrite length_replicate; lia|exact Hall|].
        eexists. reflexivity.
      * intros H. contradiction.
      * intros _ H. discriminate H.
      * intros k s _ _ Hk Hs Hfirst.
        rewrite (parse_values_first_refused _ values 0 _ k s Hk Hs Hfirst). reflexivity.
    + split; [intros args' H; discriminate H|].
      split; [intros _ H; contradiction|].
      split; [intros H; contradiction|].
      split; [reflexivity|].
      intros k s _ H. contradiction.
Qed.

Lemma X3_parseFlags_result_witness :
  parseFlags (sample_args "write_multiple_registers" 1 1 false) "0"
             ["1"; "x"; "70000"]%string =
    inl (Fatalf "Invalid value in 'values': %s" (AStr "x")).
Proof.
  apply (proj2 (proj2 (proj2 (proj2
           (X3_parseFlags_result (sample_args "write_multiple_registers" 1 1 false) "0"
              ["1"; "x"; "70000"]%string)))) 1%nat "x"%string).
  - discriminate.
  - discriminate.
  - reflexivity.
  - reflexivity.
  - intros j s' Hj Hs'. assert (j = 0%nat) by lia. subst j.
    injection Hs' as <-. discriminate.
Defined.

(* ===================================================================== *)
(** ** What every run of an operation looks like *)
(* ===================================================================== *)

(** A pass of any operation is the request and one line, or the request
    and a panic. *)
Lemma pass_shape_any (args : ModbusArgs) (client : Client) (rq : Request) body :
  (exists code,
     read_request code (Start args) (Count args) = Some rq /\ is_read rq = true /\
     body = read_body client code (Start args) (Count args) (Unsigned args)) \/
  (exists s a, is_read rq = false /\ body = write_body client rq s a) ->
  forall n,
    (exists line, body n = ([Call rq; line], None) /\ is_line line = true) \/
    (exists p, body n = ([Call rq], Some p) /\ is_read rq = true).
Proof.
  intros [(code & Hrq & Hread & ->)|(s & a & Hread & ->)] n.
  - destruct (err (client n rq)) as [e|] eqn:Herr.
    + left. rewrite (read_body_failure _ _ _ _ _ _ _ _ Hrq Herr).
      eexists; split; reflexivity.
    + rewrite (read_body_success _ _ _ _ _ _ _ Hrq Herr).
      destruct (decode _ _ _) as [vs|p].
      * left. eexists; split; [reflexivity|].
        unfold read_report. destruct (Unsigned args); reflexivity.
      * right. exists p. split; [reflexivity|exact Hread].
  - left. apply write_body_shape.
Qed.

(** The accounts of a loop whose passes have that shape. *)
Lemma for_loop_accounts body repeat interval rq :
  (forall n,
     (exists line, body n = ([Call rq; line], None) /\ is_line line = true) \/
     (exists p, body n = ([Call rq], Some p))) ->
  forall fuel i n,
  let t := fst (for_loop body repeat interval fuel i n) in
  let st := snd (for_loop body repeat interval fuel i n) in
  count_events is_line t = count_events is_sleep t /\
  count_events is_call t = (count_events is_line t + crashed st)%nat /\
  (forall line, st <> Exited line).
Proof.
  intros Hshape. induction fuel as [|fuel IH]; intros i n; cbn [for_loop]; cbv zeta.
  - destruct (loop_cond repeat i); repeat split; discriminate.
  - destruct (loop_cond repeat i); [|repeat split; discriminate].
    destruct (Hshape n) as [(line & -> & Hline)|(p & ->)].
    + specialize (IH (int_add i 1) (S n)). cbv zeta in IH.
      destruct (for_loop body repeat interval fuel (int_add i 1) (S n)) as [rest st].
      cbn [fst snd] in *. destruct IH as (Hls & Hcl & Hex).
      destruct line; try discriminate Hline.
      unfold count_events in *.
      cbn [app List.filter is_call is_line is_sleep length].
      repeat split; [lia|lia|exact Hex].
    + cbn [fst snd]. repeat split; discriminate.
Qed.

(** X4.  The requests of an operation.  For each of the eight operations,
    every request made in a run is the one request that the arguments
    determine, whatever the transport answered before; the first pass is
    always made, so a run observed for at least one pass starts with that
    request; and a write operation never ends in a panic. *)
Theorem X4_requests_of_an_operation
    (args : ModbusArgs) (client : Client) (rq : Request) (fuel : nat) :
  operation_request args = Some rq ->
  exists t st,
    dispatch args client fuel = Some (t, st) /\
    (forall rq', In (Call rq') t -> rq' = rq) /\
    (forall ev, In ev t -> is_loop_event ev = true) /\
    ((0 < fuel)%nat -> exists rest, t = Call rq :: rest) /\
    (is_read rq = false -> forall p, st <> Crashed p).
Proof.
  intros Hrq.
  destruct (dispatch_loop args client rq Hrq) as (body & Hloop & Hbody).
  pose proof (pass_shape_any args client rq body Hbody) as Hshape.
  destruct (for_loop body (Repeat args) (Interval args) fuel 0 0) as [t st] eqn:Hrun.
  exists t, st. split; [rewrite Hloop, Hrun; reflexivity|].
  assert (Hev : forall (P : Event -> Prop),
            P (Call rq) -> (forall f a, P (Printf f a)) -> (forall d, P (Sleep d)) ->
            forall ev, In ev t -> P ev).
  { intros P Hcall Hprintf Hsleep ev Hin.
    apply (for_loop_events body (Repeat args) (Interval args) P) with
      (fuel := fuel) (i := 0) (n := 0%nat); [|exact Hsleep|rewrite Hrun; exact Hin].
    intros n ev' Hin'.
    destruct (Hshape n) as [(line & Hb & Hline)|(p & Hb & _)]; rewrite Hb in Hin'.
    - destruct Hin' as [<-|[<-|[]]]; [exact Hcall|].
      destruct line; try discriminate Hline. apply Hprintf.
    - destruct Hin' as [<-|[]]. exact Hcall. }
  split; [|split; [|split]].
  - intros rq' Hin.
    apply (Hev (fun ev => forall r, ev = Call r -> r = rq)) with (r := rq') in Hin;
      [exact Hin| | | |reflexivity].
    + intros r Hr. injection Hr as <-. reflexivity.
    + intros f a r Hr. discriminate Hr.
    + intros d r Hr. discriminate Hr.
  - apply Hev; reflexivity.
  - intros Hfuel. destruct fuel as [|fuel]; [lia|].
    destruct (pass_starts_with_call args client rq body 0 Hbody) as (evs & o & Hb).
    destruct (for_loop_one_starts body (Repeat args) (Interval args) fuel 0 0%nat
                rq evs o (loop_cond_zero _) Hb) as (rest & st' & Hone).
    rewrite Hone in Hrun. injection Hrun as <- _. exists rest. reflexivity.
  - intros Hwrite p ->.
    destruct (for_loop_crash_origin _ _ _ _ _ _ _ _ Hrun) as (n & evs & _ & Hb).
    destruct (pass_panic_origin args client rq body n evs p Hbody Hb) as (Hread & _).
    congruence.
Qed.

Lemma X4_requests_of_an_operation_witness :
  exists t st,
    dispatch (sample_args "write_multiple_coils" 1 0 false) (timeout_at 0 []) 2 =
      Some (t, st) /\
    (forall rq', In (Call rq') t -> rq' = WriteMultipleCoils 0 0 []) /\
    (forall ev, In ev t -> is_loop_event ev = true) /\
    ((0 < 2)%nat -> exists rest, t = Call (WriteMultipleCoils 0 0 []) :: rest) /\
    (is_read (WriteMultipleCoils 0 0 []) = false -> forall p, st <> Crashed p).
Proof.
  exact (X4_requests_of_an_operation
           (sample_args "write_multiple_coils" 1 0 false) (timeout_at 0 [])
           (WriteMultipleCoils 0 0 []) 2 eq_refl).
Defined.

(** X5.  The accounts of a run.  For each of the eight operations, however
    long the run is observed and however it ended: every log line is
    followed by one sleep, so there are as many lines as sleeps; every
    request has its line, except the one request whose reply made the decode
    step panic, which is the last event of the loop; and a loop never ends
    the process with a fatal line. *)
Theorem X5_accounts_of_a_run
    (args : ModbusArgs) (client : Client) (rq : Request) (fuel : nat) :
  operation_request args = Some rq ->
  exists t st,
    dispatch args client fuel = Some (t, st) /\
    count_events is_line t = count_events is_sleep t /\
    count_events is_call t = (count_events is_line t + crashed st)%nat /\
    (forall p, st = Crashed p -> exists t', t = t' ++ [Call rq]) /\
    (forall line, st <> Exited line).
Proof.
  intros Hrq.
  destruct (dispatch_loop args client rq Hrq) as (body & Hloop & Hbody).
  assert (Hshape : forall n,
            (exists line, body n = ([Call rq; line], None) /\ is_line line = true) \/
            (exists p, body n = ([Call rq], Some p))).
  { intros n. destruct (pass_shape_any args client rq body Hbody n)
      as [H|(p & Hb & _)]; [left; exact H|right; exists p; exact Hb]. }
  pose proof (for_loop_accounts body (Repeat args) (Interval args) rq Hshape fuel 0 0%nat)
    as Hacc. cbv zeta in Hacc.
  assert (Hlast : forall fuel' i n t p,
            for_loop body (Repeat args) (Interval args) fuel' i n = (t, Crashed p) ->
            exists t', t = t' ++ [Call rq]).
  { induction fuel' as [|fuel' IH]; intros i n t p Hrun; cbn [for_loop] in Hrun.
    - destruct (loop_cond (Repeat args) i); discriminate Hrun.
    - destruct (loop_cond (Repeat args) i); [|discriminate Hrun].
      destruct (Hshape n) as [(line & Hb & _)|(q & Hb)]; rewrite Hb in Hrun.
      + destruct (for_loop body (Repeat args) (Interval args) fuel' (int_add i 1) (S n))
          as [rest st] eqn:Hk.
        injection Hrun as <- ->. destruct (IH _ _ _ _ Hk) as [t' ->].
        exists ([Call rq; line] ++ Sleep (Duration_mul (Interval args)) :: t').
        rewrite <- !app_assoc. reflexivity.
      + injection Hrun as <- _. exists []. reflexivity. }
  destruct (for_loop body (Repeat args) (Interval args) fuel 0 0) as [t st] eqn:Hrun.
  cbn [fst snd] in Hacc. destruct Hacc as (Hls & Hcl & Hex).
  exists t, st. split; [rewrite Hloop, Hrun; reflexivity|].
  split; [exact Hls|]. split; [exact Hcl|]. split; [|exact Hex].
  intros p ->. apply (Hlast _ _ _ _ _ Hrun).
Qed.

Lemma X5_accounts_of_a_run_witness :
  exists t st,
    dispatch (sample_args "read_holding_registers" 1 0 true)
             (steady_client [x00; x01; x00; x02]) 3 = Some (t, st) /\
    count_events is_line t = count_events is_sleep t /\
    count_events is_call t = (count_events is_line t + crashed st)%nat /\
    (forall p, st = Crashed p -> exists t', t = t' ++ [Call (ReadHoldingRegisters 0 1)]) /\
    (forall line, st <> Exited line).
Proof.
  exact (X5_accounts_of_a_run
           (sample_args "read_holding_registers" 1 0 true)
           (steady_client [x00; x01; x00; x02])
           (ReadHoldingRegisters 0 1) 3 eq_refl).
Defined.

(* ===================================================================== *)
(** ** Sleeps and the life of the handler *)
(* ===================================================================== *)

Lemma int64_range (z : Z) : - 2 ^ 63 <= int64 z < 2 ^ 63.
Proof.
  unfold int64. pose proof (Z.mod_pos_bound z (2 ^ 64) ltac:(lia)) as Hm.
  destruct (z mod 2 ^ 64 <? 2 ^ 63) eqn:E;
    [apply Z.ltb_lt in E|apply Z.ltb_ge in E]; lia.
Qed.

Lemma int64_small (z : Z) : - 2 ^ 63 <= z < 2 ^ 63 -> int64 z = z.
Proof.
  intros Hz. unfold int64. destruct (Z.lt_ge_cases z 0) as [Hneg|Hpos].
  - replace (z mod 2 ^ 64) with (z + 2 ^ 64).
    + destruct (z + 2 ^ 64 <? 2 ^ 63) eqn:E; [apply Z.ltb_lt in E; lia|lia].
    + symmetry. replace z with ((z + 2 ^ 64) + (-1) * 2 ^ 64) at 1 by lia.
      rewrite Z.mod_add by lia. apply Z.mod_small. lia.
  - rewrite Z.mod_small by lia.
    destruct (z <? 2 ^ 63) eqn:E; [reflexivity|apply Z.ltb_ge in E; lia].
Qed.

(** The sleeps of a loop whose passes do not sleep themselves. *)
Lemma for_loop_sleeps body repeat interval :
  (forall n ev, In ev (fst (body n)) -> is_sleep ev = false) ->
  forall fuel i n d,
  In (Sleep d) (fst (for_loop body repeat interval fuel i n)) ->
  d = Duration_mul interval.
Proof.
  intros Hbody. induction fuel as [|fuel IH]; intros i n d Hin; cbn [for_loop] in Hin.
  - destruct (loop_cond repeat i); destruct Hin.
  - destruct (loop_cond repeat i); [|destruct Hin].
    destruct (body n) as [evs [p|]] eqn:Hb.
    + specialize (Hbody n (Sleep d)). rewrite Hb in Hbody.
      specialize (Hbody Hin). discriminate Hbody.
    + destruct (for_loop body repeat interval fuel (int_add i 1) (S n)) as [rest st] eqn:Hk.
      cbn [fst] in Hin. apply in_app_or in Hin. destruct Hin as [Hin|[Heq|Hin]].
      * specialize (Hbody n (Sleep d)). rewrite Hb in Hbody.
        specialize (Hbody Hin). discriminate Hbody.
      * injection Heq as <-. reflexivity.
      * apply (IH (int_add i 1) (S n)). rewrite Hk. exact Hin.
Qed.

(** The events and the end of a run of an operation: requests, lines and
    sleeps only, and no fatal exit. *)
Lemma dispatch_run (args : ModbusArgs) (client : Client) (rq : Request) (fuel : nat) :
  operation_request args = Some rq ->
  exists t st,
    dispatch args client fuel = Some (t, st) /\
    (forall ev, In ev t -> is_loop_event ev = true) /\
    (forall d, In (Sleep d) t -> d = Duration_mul (Interval args)) /\
    (forall line, st <> Exited line).
Proof.
  intros Hrq.
  destruct (dispatch_loop args client rq Hrq) as (body & Hloop & Hbody).
  pose proof (pass_shape_any args client rq body Hbody) as Hshape.
  assert (Hpass : forall n ev, In ev (fst (body n)) -> is_call ev || is_line ev = true).
  { intros n ev Hin.
    destruct (Hshape n) as [(line & Hb & Hline)|(p & Hb & _)]; rewrite Hb in Hin.
    - destruct Hin as [<-|[<-|[]]]; [reflexivity|]. rewrite Hline. apply orb_true_r.
    - destruct Hin as [<-|[]]. reflexivity. }
  destruct (for_loop body (Repeat args) (Interval args) fuel 0 0) as [t st] eqn:Hrun.
  exists t, st. split; [rewrite Hloop, Hrun; reflexivity|]. split; [|split].
  - intros ev Hin.
    apply (for_loop_events body (Repeat args) (Interval args)
             (fun ev => is_loop_event ev = true)) with (fuel := fuel) (i := 0) (n := 0%nat);
      [|reflexivity|rewrite Hrun; exact Hin].
    intros n ev' Hin'. unfold is_loop_event. rewrite (Hpass n ev' Hin'). reflexivity.
  - intros d Hin.
    apply (for_loop_sleeps body (Repeat args) (Interval args)) with
      (fuel := fuel) (i := 0) (n := 0%nat); [|rewrite Hrun; exact Hin].
    intros n ev' Hin'. apply Hpass in Hin'.
    destruct ev'; try discriminate Hin'; reflexivity.
  - assert (Hshape' : forall n,
              (exists line, body n = ([Call rq; line], None) /\ is_line line = true) \/
              (exists p, body n = ([Call rq], Some p))).
    { intros n. destruct (Hshape n) as [H|(p & Hb & _)];
        [left; exact H|right; exists p; exact Hb]. }
    pose proof (for_loop_accounts body (Repeat args) (Interval args) rq Hshape' fuel 0 0%nat)
      as Hacc. cbv zeta in Hacc. rewrite Hrun in Hacc. apply Hacc.
Qed.

Lemma dispatch_none (args : ModbusArgs) (client : Client) (fuel : nat) :
  operation_request args = None -> dispatch args client fuel = None.
Proof.
  unfold operation_request, dispatch. intros H.
  repeat match type of H with
         | context [String.eqb ?a ?b] => destruct (String.eqb a b); [discriminate H|]
         end.
  reflexivity.
Qed.

(** X6.  The sleeps of a run.  For each of the eight operations, every sleep
    of a run lasts [time.Duration(interval) * time.Millisecond], a 64-bit
    number of nanoseconds.  For an interval that is a Go [int], that number
    is the interval in milliseconds exactly when the interval lies within
    +-9223372036854 ms; outside, the product wraps around. *)
Theorem X6_sleeps_of_a_run
    (args : ModbusArgs) (client : Client) (rq : Request) (fuel : nat) :
  operation_request args = Some rq ->
  - 2 ^ 63 <= Interval args < 2 ^ 63 ->
  exists t st,
    dispatch args client fuel = Some (t, st) /\
    (forall d, In (Sleep d) t -> d = Duration_mul (Interval args)) /\
    - 2 ^ 63 <= Duration_mul (Interval args) < 2 ^ 63 /\
    (Duration_mul (Interval args) = Interval args * 1000000 <->
     -9223372036854 <= Interval args <= 9223372036854).
Proof.
  intros Hrq Hint.
  destruct (dispatch_run args client rq fuel Hrq) as (t & st & Hd & _ & Hsleep & _).
  exists t, st. split; [exact Hd|]. split; [exact Hsleep|].
  unfold Duration_mul, Millisecond. rewrite (int64_small (Interval args) Hint).
  pose proof (int64_range (Interval args * 1000000)) as Hr.
  split; [exact Hr|]. split.
  - intros Heq. rewrite Heq in Hr. lia.
  - intros Hin. apply int64_small. lia.
Qed.

Lemma X6_sleeps_of_a_run_witness :
  exists t st,
    dispatch (sample_args "read_coils" 16 2 false) (timeout_at 1 [x05; x00]) 3 =
      Some (t, st) /\
    count_events is_sleep t = 2%nat /\
    In (Sleep 1000000000) t /\
    (forall d, In (Sleep d) t -> d = Duration_mul 1000) /\
    - 2 ^ 63 <= Duration_mul 1000 < 2 ^ 63 /\
    (Duration_mul 1000 = 1000 * 1000000 <-> -9223372036854 <= 1000 <= 9223372036854).
Proof.
  assert (Hint : - 2 ^ 63 <= Interval (sample_args "read_coils" 16 2 false) < 2 ^ 63)
    by (unfold sample_args; cbn [Interval]; lia).
  destruct (X6_sleeps_of_a_run (sample_args "read_coils" 16 2 false)
              (timeout_at 1 [x05; x00]) (ReadCoils 0 16) 3 eq_refl Hint)
    as (t & st & Hd & Hsleep & Hrange & Hms).
  exists t, st. split; [exact Hd|].
  assert (Ht : t = [Call (ReadCoils 0 16);
                    Printf "Read response (signed): %v"
                           (AInt16s [1280; 0; 0; 0; 0; 0; 0; 0; 0; 0; 0; 0; 0; 0; 0; 0]);
                    Sleep 1000000000;
                    Call (ReadCoils 0 16);
                    Printf "Error during read operation: %v" (AErr "i/o timeout");
                    Sleep 1000000000]).
  { vm_compute in Hd. injection Hd as <- _. reflexivity. }
  split; [rewrite Ht; reflexivity|].
  split; [rewrite Ht; cbn [In]; auto|].
  split; [exact Hsleep|]. split; [exact Hrange|exact Hms].
Defined.

(** X7.  The life of the handler.  Whatever the arguments and the transport,
    [main] allocates the handler at most once, as its first event, and only
    after [parseFlags] has accepted the arguments.  When the operation
    returns or panics, the deferred close is the last event and the only
    close; between allocation and close there are only requests, lines and
    sleeps.  When the process ends in a fatal line, the handler is never
    closed and no request, line or sleep has occurred. *)
Theorem X7_life_of_the_handler
    (parsed : ModbusArgs) (valueStr : string) (values : list string)
    (client : Client) (fuel : nat) :
  let created :=
    NewTCPClientHandler (Server parsed) (Port parsed) (UnitID parsed mod 256) in
  match main parsed valueStr values client fuel with
  | (t, Exited line) =>
      (t = [] /\ parseFlags parsed valueStr values = inl line) \/
      (t = [created] /\ operation_request parsed = None /\
       line = Fatalf "Invalid operation: %s" (AStr (Operation parsed)))
  | (t, Running _ _) =>
      exists evs, t = created :: evs /\ (forall ev, In ev evs -> is_loop_event ev = true)
  | (t, _) =>
      exists evs, t = created :: evs ++ [Close] /\
                  (forall ev, In ev evs -> is_loop_event ev = true)
  end.
Proof.
  cbv zeta. unfold main.
  destruct (parseFlags parsed valueStr values) as [line|args] eqn:Hp.
  - left. split; reflexivity.
  - pose proof Hp as Hfields. unfold parseFlags in Hfields.
    destruct (String.eqb (Server parsed) ""); [discriminate Hfields|].
    destruct (parse_value (Unsigned parsed) valueStr) as [value|]; [|discriminate Hfields].
    destruct (parse_values _ _ _ _) as [l|vs]; [discriminate Hfields|].
    injection Hfields as <-. unfold createModbusClient.
    cbn [Server Port UnitID Operation].
    set (args := mkArgs (Server parsed) (Port parsed) (UnitID parsed) (Operation parsed)
                        (Start parsed) (Count parsed) value vs (Repeat parsed)
                        (Interval parsed) (Unsigned parsed)).
    assert (Hop : operation_request parsed = None <-> operation_request args = None)
      by (unfold operation_request; cbn [Operation args];
          repeat match goal with
                 | |- context [String.eqb ?a ?b] => destruct (String.eqb a b)
                 end; split; intros H; try discriminate H; reflexivity).
    destruct (operation_request args) as [rq|] eqn:Hrq.
    + destruct (dispatch_run args client rq fuel Hrq) as (t & st & -> & Hev & _ & Hex).
      destruct st as [i n| |p|line].
      * exists t. split; [reflexivity|exact Hev].
      * exists t. split; [reflexivity|exact Hev].
      * exists t. split; [reflexivity|exact Hev].
      * exfalso. apply (Hex line). reflexivity.
    + rewrite (dispatch_none args client fuel Hrq). right.
      split; [reflexivity|]. split; [apply Hop; reflexivity|reflexivity].
Qed.

(* ===================================================================== *)
(** ** The two modes of the decode step, and reading back what was written *)
(* ===================================================================== *)

Lemma word_at_range (r : ByteSlice) (j : nat) : 0 <= word_at r j <= 65535.
Proof.
  unfold word_at.
  destruct (backing r !! (2 * j)%nat) as [b0|]; [|lia].
  destruct (backing r !! (2 * j + 1)%nat) as [b1|]; [|lia].
  apply be16_range.
Qed.

(** The signed loop does to the converted values what the unsigned loop does
    to the values. *)
Lemma decode_loop_int16 (r : ByteSlice) :
  forall (m i : nat) (vs : list Z), (slen r - i <= m)%nat ->
  decode_loop int16 r i (map int16 vs) =
    match decode_loop (fun u => u) r i vs with
    | Ok us => Ok (map int16 us)
    | Panicked p => Panicked p
    end.
Proof.
  induction m as [|m IH]; intros i vs Hm.
  - rewrite !decode_loop_done by lia. reflexivity.
  - rewrite (decode_loop_eq int16), (decode_loop_eq (fun u => u)).
    destruct (decide (i < slen r)%nat) as [Hlt|Hge]; [|reflexivity].
    destruct (reslice r i (i + 2)) as [w|p]; [|reflexivity].
    cbn [mbind Res_bind]. destruct (Uint16 w) as [u|p]; [|reflexivity].
    cbn [mbind Res_bind]. unfold store. rewrite length_map.
    destruct (i / 2 <? length vs)%nat; [|reflexivity].
    replace (<[(i / 2)%nat := int16 u]> (map int16 vs))
      with (map int16 (<[(i / 2)%nat := u]> vs))
      by (apply (list_fmap_insert int16)).
    apply IH. lia.
Qed.

Lemma map_int16_zeros (count : nat) : map int16 (replicate count 0) = replicate count 0.
Proof. induction count as [|count IH]; [reflexivity|]. cbn [replicate map]. rewrite IH. reflexivity. Qed.

Lemma lookup_id_map (f : Z -> Z) (P : Z -> Prop) (l : list Z) :
  (forall x, P x -> f x = x) -> Forall P l -> map f l = l.
Proof.
  intros Hf Hl. induction Hl as [|x l Hx Hl IH]; [reflexivity|].
  cbn [map]. rewrite (Hf x Hx), IH. reflexivity.
Qed.

(** X8.  The mode changes the reading of a payload, never its fate.  For
    every payload and count the signed decode step ends as the unsigned one
    does: with the same panic, or with the values of the unsigned step
    converted by [int16].  The unsigned values all lie in [0, 65535], and the
    low 16 bits of the signed values give them back. *)
Theorem X8_signed_is_unsigned_reinterpreted (r : ByteSlice) (count : nat) :
  decode_signed r count =
    match decode_unsigned r count with
    | Ok us => Ok (map int16 us)
    | Panicked p => Panicked p
    end /\
  (forall us, decode_unsigned r count = Ok us ->
     Forall (fun u => 0 <= u <= 65535) us /\ map uint16 (map int16 us) = us).
Proof.
  split.
  - unfold decode_signed, decode_unsigned.
    rewrite <- (map_int16_zeros count) at 1.
    apply (decode_loop_int16 r (slen r) 0). lia.
  - intros us Hus.
    assert (Hok : exists vs, decode_loop (fun u => u) r 0 (replicate count 0) = Ok vs)
      by (exists us; exact Hus).
    apply decode_loop_returns_iff in Hok. destruct Hok as [Hw Hfit].
    destruct (decode_loop_returns (fun u => u) r count Hw Hfit) as (vs & Hvs & _ & Hj).
    unfold decode_unsigned in Hus. rewrite Hvs in Hus. injection Hus as <-.
    assert (Hrange : Forall (fun u => 0 <= u <= 65535) vs).
    { apply Forall_lookup. intros j u Hu. rewrite Hj in Hu.
      destruct (decide (j < nwords r)%nat).
      - injection Hu as <-. apply word_at_range.
      - destruct (decide (j < count)%nat); [injection Hu as <-; lia|discriminate Hu]. }
    split; [exact Hrange|].
    rewrite map_map.
    apply (lookup_id_map _ (fun u => 0 <= u <= 65535)); [|exact Hrange].
    intros u Hu. unfold uint16. apply (int16_spec u Hu).
Qed.

Lemma X8_signed_is_unsigned_reinterpreted_witness :
  Forall (fun u => 0 <= u <= 65535) [10; 65535] /\
  map uint16 (map int16 [10; 65535]) = [10; 65535].
Proof.
  apply (proj2 (X8_signed_is_unsigned_reinterpreted (full_slice [x00; x0a; xff; xff]) 2)).
  reflexivity.
Defined.

Lemma be_words_flat_map (values : list Z) :
  Forall (fun v => 0 <= v <= 65535) values -> be_words (flat_map be_bytes values) = values.
Proof.
  intros H. induction H as [|v values Hv H IH]; [reflexivity|].
  cbn [flat_map be_bytes app be_words]. rewrite IH, (be16_be_bytes v Hv). reflexivity.
Qed.

(** The block of a sequence of 16-bit values decodes to the sequence. *)
Lemma block_decodes (conv : Z -> Z) (values : list Z) (behind : list byte) :
  Forall (fun v => 0 <= v <= 65535) values ->
  decode_loop conv (mkSlice (flat_map be_bytes values) behind) 0
              (replicate (length values) 0) = Ok (map conv values).
Proof.
  intros Hv. pose proof (length_flat_map_be_bytes values) as Hlen.
  assert (Heven : Nat.even (slen (mkSlice (flat_map be_bytes values) behind)) = true).
  { unfold slen. cbn [elems]. rewrite Hlen. apply Nat.even_spec. exists (length values). lia. }
  assert (Hfit : (slen (mkSlice (flat_map be_bytes values) behind) <= 2 * length values)%nat).
  { unfold slen. cbn [elems]. lia. }
  assert (Hzero : (length values
                   - slen (mkSlice (flat_map be_bytes values) behind) / 2 = 0)%nat).
  { unfold slen. cbn [elems]. rewrite Hlen, (Nat.mul_comm 2), Nat.div_mul by lia. lia. }
  rewrite decode_loop_even by assumption.
  rewrite Hzero. cbn [elems replicate]. rewrite app_nil_r.
  rewrite (be_words_flat_map values Hv). reflexivity.
Qed.

(** X9.  Reading back what was written.  For every sequence of 16-bit
    values, the data block that the multiple-write operations build, handed
    back as the payload of a read of as many registers, decodes in unsigned
    mode to the same values and in signed mode to their [int16] readings,
    whatever lies behind the payload in its backing array. *)
Theorem X9_written_block_reads_back (values : list Z) (behind : list byte) :
  Forall (fun v => 0 <= v <= 65535) values ->
  exists data,
    encode values = Ok data /\
    length data = (2 * length values)%nat /\
    decode_unsigned (mkSlice data behind) (length values) = Ok values /\
    decode_signed (mkSlice data behind) (length values) = Ok (map int16 values).
Proof.
  intros Hv. exists (flat_map be_bytes values).
  split; [apply encode_flat_map|].
  split; [apply length_flat_map_be_bytes|].
  unfold decode_unsigned, decode_signed.
  rewrite !block_decodes by exact Hv. rewrite map_id. split; reflexivity.
Qed.

Lemma X9_written_block_reads_back_witness :
  exists data,
    encode [1; 65535; 32768] = Ok data /\
    length data = (2 * 3)%nat /\
    decode_unsigned (mkSlice data [x07]) 3 = Ok [1; 65535; 32768] /\
    decode_signed (mkSlice data [x07]) 3 = Ok (map int16 [1; 65535; 32768]).
Proof.
  apply (X9_written_block_reads_back [1; 65535; 32768] [x07]).
  repeat constructor; lia.
Defined.

Lemma int16_of_pattern (n : Z) : -32768 <= n <= 32767 -> int16 (n mod 65536) = n.
Proof.
  intros Hn. unfold int16. rewrite Z.mod_mod by lia.
  destruct (Z.lt_ge_cases n 0) as [Hneg|Hpos].
  - assert (Hw : n mod 65536 = n + 65536).
    { replace n with ((n + 65536) + (-1) * 65536) at 1 by lia.
      rewrite Z.mod_add by lia. apply Z.mod_small. lia. }
    rewrite Hw. destruct (n + 65536 <? 32768) eqn:E; [apply Z.ltb_lt in E; lia|lia].
  - rewrite Z.mod_small by lia.
    destruct (n <? 32768) eqn:E; [reflexivity|apply Z.ltb_ge in E; lia].
Qed.

(** X10.  From the command line to the wire and back, in signed mode.  When
    the server is given, [--value] is accepted and the strings of [--values]
    denote numbers of [-32768, 32767], [parseFlags] stores their 16-bit
    patterns in order, and the data block built from them, handed back as
    the payload of a read of as many registers, decodes in signed mode to
    the numbers that were entered. *)
Theorem X10_signed_values_round_trip
    (args : ModbusArgs) (valueStr : string) (strings : list string) (numbers : list Z)
    (behind : list byte) :
  Server args <> ""%string -> Unsigned args = false ->
  parse_value false valueStr <> None ->
  Forall2 (fun s n => signed_decimal s = Some n /\ -32768 <= n <= 32767) strings numbers ->
  exists args' data,
    parseFlags args valueStr strings = inr args' /\
    Values args' = map (fun n => n mod 65536) numbers /\
    encode (Values args') = Ok data /\
    decode_signed (mkSlice data behind) (length numbers) = Ok numbers.
Proof.
  intros Hsrv Hu Hvalue Hall.
  assert (Hparse : forall k s, strings !! k = Some s ->
            exists n, numbers !! k = Some n /\ -32768 <= n <= 32767 /\
                      parse_value false s = Some (n mod 65536)).
  { intros k s Hk.
    destruct (Forall2_lookup_l _ _ _ _ _ Hall Hk) as (n & Hn & Hs & Hr).
    exists n. split; [exact Hn|]. split; [exact Hr|].
    rewrite (parse_value_signed s n Hs).
    replace ((-32768 <=? n) && (n <=? 32767)) with true; [reflexivity|].
    symmetry. apply andb_true_iff. split; apply Z.leb_le; lia. }
  destruct (parse_values_accepts false strings 0 (replicate (length strings) 0))
    as (vs & Hvs & Hlen & _ & Hk).
  { rewrite length_replicate. lia. }
  { intros s Hin Hnone. apply list_elem_of_In, list_elem_of_lookup in Hin.
    destruct Hin as [k Hks]. destruct (Hparse k s Hks) as (n & _ & _ & Hp). congruence. }
  rewrite length_replicate in Hlen.
  pose proof (Forall2_length _ _ _ Hall) as Hsame.
  assert (Hvalues : vs = map (fun n => n mod 65536) numbers).
  { apply list_eq. intros k. rewrite list_lookup_fmap.
    destruct (strings !! k) as [s|] eqn:Hks.
    - destruct (Hk k s Hks) as (v & Hv & Hat). cbn [Nat.add] in Hat.
      destruct (Hparse k s Hks) as (n & Hn & _ & Hp).
      rewrite Hat, Hn. cbn [fmap option_fmap option_map]. congruence.
    - apply lookup_ge_None in Hks.
      rewrite (proj2 (lookup_ge_None vs k)) by lia.
      rewrite (proj2 (lookup_ge_None numbers k)) by lia. reflexivity. }
  destruct (parse_value false valueStr) as [value|] eqn:Hv; [|contradiction].
  eexists _, (flat_map be_bytes vs). unfold parseFlags.
  destruct (String.eqb_spec (Server args) "") as [Hempty|_]; [contradiction|].
  rewrite Hu, Hv, Hvs. split; [reflexivity|]. cbn [Values].
  split; [exact Hvalues|]. split; [apply encode_flat_map|].
  assert (Hrange : Forall (fun v => 0 <= v <= 65535) vs).
  { rewrite Hvalues. apply List.Forall_forall. intros v Hin. apply in_map_iff in Hin.
    destruct Hin as (n & <- & _).
    pose proof (Z.mod_pos_bound n 65536 ltac:(lia)). lia. }
  unfold decode_signed.
  replace (length numbers) with (length vs) by lia.
  rewrite (block_decodes int16 vs behind Hrange), Hvalues, map_map. f_equal.
  apply (lookup_id_map _ (fun n => -32768 <= n <= 32767)).
  - intros n Hn. apply int16_of_pattern. exact Hn.
  - apply Forall_lookup. intros k n Hkn.
    destruct (Forall2_lookup_r _ _ _ _ _ Hall Hkn) as (s & _ & _ & Hr). exact Hr.
Qed.

Lemma X10_signed_values_round_trip_witness :
  exists args' data,
    parseFlags (sample_args "write_multiple_registers" 1 1 false) "0"
               ["1"; "-1"; "-32768"]%string = inr args' /\
    Values args' = map (fun n => n mod 65536) [1; -1; -32768] /\
    encode (Values args') = Ok data /\
    decode_signed (mkSlice data []) (length [1; -1; -32768]) = Ok [1; -1; -32768].
Proof.
  apply (X10_signed_values_round_trip
           (sample_args "write_multiple_registers" 1 1 false) "0"
           ["1"; "-1"; "-32768"]%string [1; -1; -32768] []).
  - discriminate.
  - reflexivity.
  - discriminate.
  - repeat constructor; lia.
Defined.

(* ===================================================================== *)
(** ** Edges of the read and write paths *)
(* ===================================================================== *)

(** X11.  A read that has nothing to decode.  [performReadOperation] makes a
    request exactly for the four read function codes; for any other code a
    pass makes no request and goes on with a nil reply.  Whenever the
    payload is empty, because no request was made or because the reply
    carried no byte, the pass does not panic and reports [count] zeros. *)
Theorem X11_nothing_to_decode
    (client : Client) (functionCode start count : Z) (unsigned : bool) (n : nat) :
  (read_request functionCode start count = None <->
   ~ In functionCode [FuncCodeReadCoils; FuncCodeReadDiscreteInputs;
                      FuncCodeReadHoldingRegisters; FuncCodeReadInputRegisters]) /\
  (read_request functionCode start count = None ->
   read_body client functionCode start count unsigned n =
     ([read_report unsigned (replicate (Z.to_nat count) 0)], None)) /\
  (forall rq,
     read_request functionCode start count = Some rq ->
     err (client n rq) = None -> elems (results (client n rq)) = [] ->
     read_body client functionCode start count unsigned n =
       ([Call rq; read_report unsigned (replicate (Z.to_nat count) 0)], None)).
Proof.
  assert (Hempty : forall r, elems r = [] ->
            decode unsigned r (Z.to_nat count) = Ok (replicate (Z.to_nat count) 0)).
  { intros r Hr. rewrite decode_by_mode. apply decode_loop_done.
    unfold slen. rewrite Hr. cbn [length]. lia. }
  split; [|split].
  - unfold read_request, FuncCodeReadCoils, FuncCodeReadDiscreteInputs,
      FuncCodeReadHoldingRegisters, FuncCodeReadInputRegisters. cbn [In].
    destruct (Z.eqb_spec functionCode 1);
      [split; [discriminate|intros H; exfalso; apply H; auto]|].
    destruct (Z.eqb_spec functionCode 2);
      [split; [discriminate|intros H; exfalso; apply H; auto]|].
    destruct (Z.eqb_spec functionCode 3);
      [split; [discriminate|intros H; exfalso; apply H; auto]|].
    destruct (Z.eqb_spec functionCode 4);
      [split; [discriminate|intros H; exfalso; apply H; auto 6]|].
    split; [|reflexivity]. intros _ H.
    destruct H as [H|[H|[H|[H|[]]]]]; congruence.
  - intros Hrq. unfold read_body. rewrite Hrq. cbn [err results].
    pose proof (Hempty nil_slice eq_refl) as Hd. unfold decode in Hd.
    unfold read_report. destruct unsigned; rewrite Hd; reflexivity.
  - intros rq Hrq Herr Hr.
    rewrite (read_body_success client functionCode start count unsigned n rq Hrq Herr).
    rewrite (Hempty _ Hr). reflexivity.
Qed.

Lemma X11_nothing_to_decode_witness :
  read_body (fun _ _ => mkReply (mkSlice [] [x09]) None)
            FuncCodeReadInputRegisters 0 3 false 0 =
    ([Call (ReadInputRegisters 0 3); read_report false (replicate (Z.to_nat 3) 0)], None).
Proof.
  apply (proj2 (proj2 (X11_nothing_to_decode
                         (fun _ _ => mkReply (mkSlice [] [x09]) None)
                         FuncCodeReadInputRegisters 0 3 false 0))
           (ReadInputRegisters 0 3));
    reflexivity.
Defined.

(** X12.  The quantity and the data of a multiple write.  Both
    [writeMultipleCoils] and [writeMultipleRegisters] start with a request
    whose data block has two bytes per value, the same block for coils as
    for registers, and whose quantity is [uint16(len(values))]: the number of
    values when there are fewer than 65536 of them, so that the block is
    twice the quantity long, and that number modulo 65536 otherwise.  An
    empty list of values still makes a request, with quantity 0 and no
    data. *)
Theorem X12_quantity_and_data_of_a_multiple_write
    (client : Client) (start : Z) (values : list Z) (repeat interval : Z) (fuel : nat) :
  let quantity := Z.of_nat (length values) mod 65536 in
  let data := flat_map be_bytes values in
  (exists rest st,
     writeMultipleCoils client start values repeat interval (S fuel) =
       (Call (WriteMultipleCoils start quantity data) :: rest, st)) /\
  (exists rest st,
     writeMultipleRegisters client start values repeat interval (S fuel) =
       (Call (WriteMultipleRegisters start quantity data) :: rest, st)) /\
  length data = (2 * length values)%nat /\
  (Z.of_nat (length data) = 2 * quantity <-> Z.of_nat (length values) < 65536) /\
  (values = [] -> quantity = 0 /\ data = []).
Proof.
  cbv zeta. split; [|split; [|split; [|split]]].
  - unfold writeMultipleCoils. rewrite encode_flat_map.
    destruct (write_body_shape client
                (WriteMultipleCoils start (uint16 (Z.of_nat (length values)))
                   (flat_map be_bytes values))
                "Successfully wrote multiple coils: %v" (AUint16s values) 0)
      as (line & Hb & _).
    apply (for_loop_one_starts _ _ _ _ _ _ _ _ _ (loop_cond_zero repeat) Hb).
  - unfold writeMultipleRegisters. rewrite encode_flat_map.
    destruct (write_body_shape client
                (WriteMultipleRegisters start (uint16 (Z.of_nat (length values)))
                   (flat_map be_bytes values))
                "Successfully wrote multiple registers: %v" (AUint16s values) 0)
      as (line & Hb & _).
    apply (for_loop_one_starts _ _ _ _ _ _ _ _ _ (loop_cond_zero repeat) Hb).
  - apply length_flat_map_be_bytes.
  - rewrite length_flat_map_be_bytes.
    pose proof (Z.mod_pos_bound (Z.of_nat (length values)) 65536 ltac:(lia)) as Hm.
    split.
    + intros Heq. lia.
    + intros Hlt. rewrite Z.mod_small by lia. lia.
  - intros ->. split; reflexivity.
Qed.

Lemma X12_quantity_and_data_of_a_multiple_write_witness :
  Z.of_nat (length (@nil Z)) mod 65536 = 0 /\ flat_map be_bytes [] = [].
Proof.
  apply (proj2 (proj2 (proj2 (proj2
           (X12_quantity_and_data_of_a_multiple_write (steady_client []) 0 [] 1 1000 0))))).
  reflexivity.
Defined.

(* ===================================================================== *)
(** ** Where a read loop ends *)
(* ===================================================================== *)

(** The first [k] passes of a loop, when none of them panics and the loop
    condition admits them and the next one. *)
Lemma for_loop_passes_until body repeat interval :
  forall (k : nat) (i0 : Z) (n0 : nat),
  (forall n, (n0 <= n < n0 + k)%nat -> snd (body n) = None) ->
  repeat <= 0 \/ (i0 = Z.of_nat n0 /\ Z.of_nat (n0 + k) < repeat < 2 ^ 63) ->
  exists i,
    for_loop body repeat interval k i0 n0 =
      (concat (map (pass_events body interval) (seq n0 k)), Running i (n0 + k)).
Proof.
  induction k as [|k IH]; intros i0 n0 Hret Hcond.
  - exists i0. cbn [for_loop seq map concat]. rewrite Nat.add_0_r.
    replace (loop_cond repeat i0) with true; [reflexivity|].
    symmetry. unfold loop_cond. apply orb_true_iff.
    destruct Hcond as [Hr|(-> & Hr)]; [left; apply Z.leb_le|right; apply Z.ltb_lt]; lia.
  - assert (Hc : loop_cond repeat i0 = true).
    { unfold loop_cond. apply orb_true_iff.
      destruct Hcond as [Hr|(-> & Hr)]; [left; apply Z.leb_le|right; apply Z.ltb_lt]; lia. }
    destruct (IH (int_add i0 1) (S n0)) as [i Hi].
    { intros n Hn. apply Hret. lia. }
    { destruct Hcond as [Hr|(-> & Hr)]; [left; exact Hr|right].
      split; [apply int_add_succ; lia|]. replace (S n0 + k)%nat with (n0 + S k)%nat by lia.
      exact Hr. }
    exists i.
    assert (Hb : body n0 = (fst (body n0), None)).
    { specialize (Hret n0 ltac:(lia)). destruct (body n0) as [evs o].
      cbn [snd] in Hret. subst o. reflexivity. }
    rewrite (for_loop_pass body repeat interval k i0 n0 _ Hc Hb), Hi.
    cbn [fst snd seq map concat].
    replace (S n0 + k)%nat with (n0 + S k)%nat by lia. reflexivity.
Qed.

Lemma count_passes_range body interval rq :
  forall m k,
  (forall n, (k <= n < k + m)%nat ->
     exists line, body n = ([Call rq; line], None) /\ is_line line = true) ->
  let t := concat (map (pass_events body interval) (seq k m)) in
  count_events is_call t = m /\ count_events is_line t = m /\ count_events is_sleep t = m.
Proof.
  induction m as [|m IH]; intros k Hshape; [repeat split|].
  cbn [seq map concat]. cbv zeta. rewrite !count_events_app.
  destruct (IH (S k)) as (Hc & Hl & Hs); [intros n Hn; apply Hshape; lia|].
  cbv zeta in Hc, Hl, Hs. rewrite Hc, Hl, Hs.
  destruct (Hshape k ltac:(lia)) as (line & Hb & Hline).
  unfold pass_events. rewrite Hb. destruct line; try discriminate Hline.
  unfold count_events. cbn [fst app List.filter is_call is_line is_sleep length].
  repeat split.
Qed.

(** X13.  Where a read loop ends.  For each of the four read operations:
    when the replies of passes 0 to k-1 either carry an error or decode, the
    reply of pass k carries no error and does not decode, and the repeat
    count admits pass k, the run consists of k complete passes, each with
    its request, its line and its sleep, followed by the request of pass k
    alone; it ends in the panic of that decode step, however much longer the
    run is observed, so passes k+1 onwards are never made. *)
Theorem X13_read_loop_ends_at_first_undecodable_reply
    (args : ModbusArgs) (client : Client) (rq : Request) (k extra : nat) (p : Panic) :
  operation_request args = Some rq -> is_read rq = true ->
  Repeat args <= 0 \/ Z.of_nat k < Repeat args < 2 ^ 63 ->
  (forall n, (n < k)%nat -> err (client n rq) = None ->
     exists vs, decode (Unsigned args) (results (client n rq)) (Z.to_nat (Count args)) = Ok vs) ->
  err (client k rq) = None ->
  decode (Unsigned args) (results (client k rq)) (Z.to_nat (Count args)) = Panicked p ->
  exists t,
    dispatch args client (S k + extra) = Some (t ++ [Call rq], Crashed p) /\
    count_events is_call t = k /\ count_events is_line t = k /\
    count_events is_sleep t = k.
Proof.
  intros Hrq Hread Hrep Hbefore Herr Hpanic.
  destruct (dispatch_loop args client rq Hrq) as (body & Hloop & Hbody).
  destruct Hbody as [(code & Hcode & _ & ->)|(s & a & Hwrite & _)]; [|congruence].
  set (body := read_body client code (Start args) (Count args) (Unsigned args)) in *.
  assert (Hshape : forall n, (0 <= n < 0 + k)%nat ->
            exists line, body n = ([Call rq; line], None) /\ is_line line = true).
  { intros n Hn. unfold body. destruct (err (client n rq)) as [e|] eqn:He.
    - rewrite (read_body_failure _ _ _ _ _ _ _ _ Hcode He). eexists; split; reflexivity.
    - destruct (Hbefore n ltac:(lia) He) as [vs Hvs].
      rewrite (read_body_success _ _ _ _ _ _ _ Hcode He), Hvs.
      eexists; split; [reflexivity|]. unfold read_report.
      destruct (Unsigned args); reflexivity. }
  assert (Hlast : body k = ([Call rq], Some p)).
  { unfold body. rewrite (read_body_success _ _ _ _ _ _ _ Hcode Herr), Hpanic. reflexivity. }
  destruct (for_loop_passes_until body (Repeat args) (Interval args) k 0 0%nat) as [i Hi].
  { intros n Hn. destruct (Hshape n Hn) as (line & -> & _). reflexivity. }
  { destruct Hrep as [Hr|Hr]; [left; exact Hr|right; split; [reflexivity|exact Hr]]. }
  destruct (for_loop_resume body (Repeat args) (Interval args) (S extra) _ _ _ _ _ _ Hi)
    as (Hc & _ & Hm).
  exists (concat (map (pass_events body (Interval args)) (seq 0 k))).
  split.
  - rewrite Hloop. replace (S k + extra)%nat with (k + S extra)%nat by lia.
    rewrite Hm. cbn [for_loop Nat.add]. rewrite Hc, Hlast. reflexivity.
  - apply (count_passes_range body (Interval args) rq k 0%nat Hshape).
Qed.

Lemma X13_read_loop_ends_at_first_undecodable_reply_witness :
  exists t,
    dispatch (sample_args "read_input_registers" 1 0 true)
             (fun n _ => if Nat.eqb n 2 then ok_reply [x00; x01; x00; x02]
                         else ok_reply [x00; x01]) (S 2 + 4) =
      Some (t ++ [Call (ReadInputRegisters 0 1)], Crashed IndexOutOfRange) /\
    count_events is_call t = 2%nat /\ count_events is_line t = 2%nat /\
    count_events is_sleep t = 2%nat.
Proof.
  apply (X13_read_loop_ends_at_first_undecodable_reply
           (sample_args "read_input_registers" 1 0 true)
           (fun n _ => if Nat.eqb n 2 then ok_reply [x00; x01; x00; x02]
                       else ok_reply [x00; x01])
           (ReadInputRegisters 0 1) 2 4 IndexOutOfRange).
  - reflexivity.
  - reflexivity.
  - left. unfold sample_args. cbn [Repeat]. lia.
  - intros n Hn _.
    destruct n as [|[|n]]; [exists [1]; reflexivity|exists [1]; reflexivity|lia].
  - reflexivity.
  - reflexivity.
Defined.

(* ===================================================================== *)
(** ** A transport error in a pass *)
(* ===================================================================== *)





